(** * Icon generation scripts of ntruth-tools: model and verification

    The repository holds two Python scripts built on Pillow:

    - [scripts/gen_icons_from_tools.py]: [_contain_rgba] (aspect preserving
      resize onto a transparent square canvas) and [main] (a 512 px PNG and
      a multi-size ICO);
    - [scripts/gen_tray_icons.py]: [main] (16 px and 32 px PNGs by a plain
      resize).

    The development is a shallow embedding.  Python integers are [Z];
    Python floats are IEEE-754 binary64 values, every operation rounding
    the exact result to nearest, ties to even; exceptions are values of
    [exn]; Pillow images live in a heap of image objects, files in a map
    from paths to file contents.  Pixel kernels (resampling, blending,
    mode conversion) are the fields of a class: no statement below depends
    on their values. *)

From Stdlib Require Import ZArith Lia Reals Lra.
From Stdlib Require FloatOps Uint63.
From Corelib Require PrimFloat SpecFloat.
From stdpp Require Import gmap strings.

Local Open Scope Z_scope.

(** ** Python runtime: exceptions, integers, floats *)

Module Py.

Inductive exn : Type :=
| ValueError (msg : string)
| OverflowError (msg : string)
| ZeroDivisionError (msg : string)
| MemoryError
| IndexError (msg : string)
| OSError (msg : string)
| FileNotFoundError (path : string)
| UnidentifiedImageError (path : string)
| ReferenceError
| SystemExit (msg : string).

Inductive Result (A : Type) : Type :=
| Ok (a : A)
| Raise (e : exn).
Arguments Ok {A} a.
Arguments Raise {A} e.

Definition rbind {A B} (r : Result A) (k : A -> Result B) : Result B :=
  match r with
  | Ok a => k a
  | Raise e => Raise e
  end.

(** A binary64 value: [Ffinite m e] is [m * 2^e]; the sign of a zero is
    not kept (the scripts only compare floats and round them to [int]). *)
Inductive pyfloat : Type :=
| Ffinite (m e : Z)
| Finf (neg : bool)
| Fnan.

(** Nearest integer to [a / b], ties to even ([0 < b]). *)
Definition rne_div (a b : Z) : Z :=
  let q := a / b in
  let r := a mod b in
  if 2 * r <? b then q
  else if b <? 2 * r then q + 1
  else if Z.even q then q else q + 1.

(** [floor (log2 (n / d))] for [0 < n], [0 < d]. *)
Definition ilog2_ratio (n d : Z) : Z :=
  let l := Z.log2 n - Z.log2 d in
  if d * 2 ^ Z.max 0 l <=? n * 2 ^ Z.max 0 (- l) then l else l - 1.

(** Round the positive rational [n / d] to binary64: 53 significant
    bits, exponent of the last place at least [-1074] (subnormals),
    overflow to infinity from [2^1024]. *)
Definition round_pos (n d : Z) : pyfloat :=
  let e := Z.max (ilog2_ratio n d - 52) (-1074) in
  let m := rne_div (n * 2 ^ Z.max 0 (- e)) (d * 2 ^ Z.max 0 e) in
  if (971 <? e) || ((e =? 971) && (2 ^ 53 <=? m)) then Finf false
  else Ffinite m e.

Definition float_neg (x : pyfloat) : pyfloat :=
  match x with
  | Ffinite m e => Ffinite (- m) e
  | Finf s => Finf (negb s)
  | Fnan => Fnan
  end.

(** Round the rational [n / d] ([0 < d]) to binary64. *)
Definition round_ratio (n d : Z) : pyfloat :=
  match n ?= 0 with
  | Eq => Ffinite 0 0
  | Gt => round_pos n d
  | Lt => float_neg (round_pos (- n) d)
  end.

(** [a / b] on [int]: the correctly rounded quotient. *)
Definition int_truediv (a b : Z) : Result pyfloat :=
  if b =? 0 then Raise (ZeroDivisionError "division by zero")
  else
    match round_ratio (a * Z.sgn b) (Z.abs b) with
    | Finf _ => Raise (OverflowError "integer division result too large for a float")
    | x => Ok x
    end.

(** [float(a)] as done implicitly by [int * float]. *)
Definition int_to_float (a : Z) : Result pyfloat :=
  match round_ratio a 1 with
  | Finf _ => Raise (OverflowError "int too large to convert to float")
  | x => Ok x
  end.

Definition float_mul (x y : pyfloat) : pyfloat :=
  match x, y with
  | Fnan, _ | _, Fnan => Fnan
  | Ffinite m1 e1, Ffinite m2 e2 =>
      round_ratio (m1 * m2 * 2 ^ Z.max 0 (e1 + e2)) (2 ^ Z.max 0 (- (e1 + e2)))
  | Ffinite m _, Finf s | Finf s, Ffinite m _ =>
      match m ?= 0 with
      | Eq => Fnan
      | Gt => Finf s
      | Lt => Finf (negb s)
      end
  | Finf s1, Finf s2 => Finf (xorb s1 s2)
  end.

(** [a * x] with [a : int] and [x : float]. *)
Definition int_mul_float (a : Z) (x : pyfloat) : Result pyfloat :=
  rbind (int_to_float a) (fun y => Ok (float_mul y x)).

Definition float_lt (x y : pyfloat) : bool :=
  match x, y with
  | Fnan, _ | _, Fnan => false
  | Ffinite m1 e1, Ffinite m2 e2 =>
      m1 * 2 ^ Z.max 0 (e1 - e2) <? m2 * 2 ^ Z.max 0 (e2 - e1)
  | Ffinite _ _, Finf s => negb s
  | Finf s, Ffinite _ _ => s
  | Finf s1, Finf s2 => s1 && negb s2
  end.

(** [min(x, y)]: the first argument unless the second is smaller. *)
Definition py_min (x y : pyfloat) : pyfloat :=
  if float_lt y x then y else x.

(** [max(a, b)] on [int]: the first argument unless the second is larger. *)
Definition py_max (a b : Z) : Z :=
  if a <? b then b else a.

(** [round(x)] with one argument: the nearest [int], ties to even. *)
Definition float_round (x : pyfloat) : Result Z :=
  match x with
  | Ffinite m e => Ok (rne_div (m * 2 ^ Z.max 0 e) (2 ^ Z.max 0 (- e)))
  | Finf _ => Raise (OverflowError "cannot convert float infinity to integer")
  | Fnan => Raise (ValueError "cannot convert float NaN to integer")
  end.

(** [int(n)] on an [int]. *)
Definition py_int (n : Z) : Z := n.

(** [a // b] for a non-zero [b]: Python floors, as [Z.div] does. *)
Definition py_floordiv (a b : Z) : Z := a / b.

End Py.

(** ** Pillow: images, files and the operations the scripts call

    Pillow is a library the scripts import, not code of the repository:
    each operation below follows Pillow's documented behaviour (what it
    returns, what it changes, when it raises), with the pixel arithmetic
    left to the class [Kernels]. *)

Module Pillow.
Import Py.

(** One pixel, as four channels; their meaning depends on the mode. *)
Definition Pixel : Type := Z * Z * Z * Z.

Record ImageData : Type := {
  im_mode : string;
  im_width : Z;
  im_height : Z;
  im_px : Z -> Z -> Pixel
}.

Definition im_size (d : ImageData) : Z * Z := (im_width d, im_height d).

(** A path, as its components ([pathlib] on Windows). *)
Definition Path : Type := list string.

Definition path_div (p : Path) (name : string) : Path := p ++ [name].

Definition with_name (p : Path) (name : string) : Path := removelast p ++ [name].

Definition path_str (p : Path) : string := String.concat "\" p.

Inductive FileData : Type :=
| PngFile (im : ImageData)
| IcoFile (frames : list ImageData)
| OtherFile (bytes : list Z).

Record World : Type := {
  heap : gmap positive ImageData;
  fs : gmap Path FileData;
  stdout : list string
}.

Definition set_heap (h : gmap positive ImageData) (w : World) : World :=
  {| heap := h; fs := fs w; stdout := stdout w |}.

Definition set_fs (f : gmap Path FileData) (w : World) : World :=
  {| heap := heap w; fs := f; stdout := stdout w |}.

Definition set_stdout (o : list string) (w : World) : World :=
  {| heap := heap w; fs := fs w; stdout := o |}.

(** [w'] still holds every image object of [w], unchanged, and the same
    files and output. *)
Definition preserves (w w' : World) : Prop :=
  (forall l d, heap w !! l = Some d -> heap w' !! l = Some d) /\
  fs w' = fs w /\ stdout w' = stdout w.

(** Image sides are C [int]s. *)
Definition INT_MAX : Z := 2 ^ 31 - 1.

(** What Pillow computes inside its C library and the largest side it
    accepts for an image ([max_dim], an allocation limit). *)
Class Kernels : Type := {
  max_dim : Z;
  max_dim_int : max_dim <= INT_MAX;
  convert_px : string -> string -> Pixel -> Pixel;
  resample : ImageData -> Z -> Z -> Z -> Z -> Pixel;
  blend : Pixel -> Pixel -> Pixel -> Pixel;
  thumbnail : ImageData -> Z * Z -> ImageData
}.

(** Computations on the world that may raise. *)
Definition M (A : Type) : Type := World -> Result A * World.

Definition ret {A} (a : A) : M A := fun w => (Ok a, w).

Definition raise {A} (e : exn) : M A := fun w => (Raise e, w).

Definition bind {A B} (c : M A) (k : A -> M B) : M B :=
  fun w =>
    match c w with
    | (Ok a, w') => k a w'
    | (Raise e, w') => (Raise e, w')
    end.

Definition lift {A} (r : Result A) : M A := fun w => (r, w).

Notation "x <- c ;; k" := (bind c (fun x => k))
  (at level 100, c at next level, k at level 200, right associativity).
Notation "c ;; k" := (bind c (fun _ => k))
  (at level 100, k at level 200, right associativity).

Fixpoint mapM {A B} (f : A -> M B) (l : list A) : M (list B) :=
  match l with
  | [] => ret []
  | a :: l' => b <- f a ;; bs <- mapM f l' ;; ret (b :: bs)
  end.

Definition alloc (d : ImageData) : M positive :=
  fun w =>
    let l := fresh (dom (heap w)) in
    (Ok l, set_heap (<[l := d]> (heap w)) w).

Definition deref (l : positive) : M ImageData :=
  fun w =>
    match heap w !! l with
    | Some d => (Ok d, w)
    | None => (Raise ReferenceError, w)
    end.

Definition store (l : positive) (d : ImageData) : M unit :=
  fun w => (Ok tt, set_heap (<[l := d]> (heap w)) w).

Section Operations.
Context `{Kernels}.

(** A side that does not fit a C [int] (the text of this error depends on
    the platform), or that Pillow will not allocate. *)
Definition check_side (n : Z) : Result unit :=
  if (INT_MAX <? n) || (n <? - INT_MAX - 1)
  then Raise (OverflowError "signed integer is greater than maximum")
  else if max_dim <? n then Raise MemoryError
  else Ok tt.

Definition wf_image (d : ImageData) : Prop :=
  0 <= im_width d <= max_dim /\ 0 <= im_height d <= max_dim.

Definition wf_imageb (d : ImageData) : bool :=
  (0 <=? im_width d) && (im_width d <=? max_dim) &&
  (0 <=? im_height d) && (im_height d <=? max_dim).

(** [img.size] *)
Definition Image_size (l : positive) : M (Z * Z) :=
  d <- deref l ;; ret (im_size d).

(** The image [Image.new] creates: every pixel is [color]. *)
Definition blank (mode : string) (w h : Z) (color : Pixel) : Result ImageData :=
  if (w <? 0) || (h <? 0) then Raise (ValueError "Width and height must be >= 0")
  else
    rbind (check_side w) (fun _ =>
    rbind (check_side h) (fun _ =>
    Ok {| im_mode := mode; im_width := w; im_height := h;
          im_px := fun _ _ => color |})).

(** [Image.new(mode, size, color)] *)
Definition Image_new (mode : string) (size : Z * Z) (color : Pixel) : M positive :=
  d <- lift (blank mode (fst size) (snd size) color) ;;
  alloc d.

Definition converted (d : ImageData) (mode : string) : ImageData :=
  {| im_mode := mode; im_width := im_width d; im_height := im_height d;
     im_px := fun x y => convert_px (im_mode d) mode (im_px d x y) |}.

(** [img.convert(mode)]: always a new image. *)
Definition Image_convert (l : positive) (mode : string) : M positive :=
  d <- deref l ;;
  alloc (converted d mode).

(** The image [resize] creates: a copy when the size does not change,
    the Lanczos resampling otherwise. *)
Definition resized (d : ImageData) (w h : Z) : Result ImageData :=
  if (im_width d =? w) && (im_height d =? h) then Ok d
  else
    rbind (check_side w) (fun _ =>
    rbind (check_side h) (fun _ =>
    if (w <? 1) || (h <? 1) then Raise (ValueError "height and width must be > 0")
    else Ok {| im_mode := im_mode d; im_width := w; im_height := h;
               im_px := resample d w h |})).

(** [img.resize(size, resample=LANCZOS)]: a new image. *)
Definition Image_resize (l : positive) (size : Z * Z) : M positive :=
  d <- deref l ;;
  d' <- lift (resized d (fst size) (snd size)) ;;
  alloc d'.

Definition mask_modes : list string := ["1"; "L"; "LA"; "RGBA"; "RGBa"].

(** The pixels of [dst] after pasting [src] through [mask] with its
    upper left corner at [(ox, oy)]: pixels outside the pasted
    rectangle keep their value. *)
Definition paste_px (dst src mask : ImageData) (ox oy : Z) : Z -> Z -> Pixel :=
  fun x y =>
    if (ox <=? x) && (x <? ox + im_width src) &&
       (oy <=? y) && (y <? oy + im_height src)
    then blend (im_px dst x y)
               (convert_px (im_mode src) (im_mode dst) (im_px src (x - ox) (y - oy)))
               (im_px mask (x - ox) (y - oy))
    else im_px dst x y.

Definition pasted (dst src mask : ImageData) (ox oy : Z) : Result ImageData :=
  if negb (bool_decide (im_mode mask ∈ mask_modes))
  then Raise (ValueError "bad transparency mask")
  else if negb ((im_width mask =? im_width src) && (im_height mask =? im_height src))
  then Raise (ValueError "images do not match")
  else Ok {| im_mode := im_mode dst; im_width := im_width dst;
             im_height := im_height dst; im_px := paste_px dst src mask ox oy |}.

(** [dst.paste(src, (ox, oy), mask)]: changes [dst] in place. *)
Definition Image_paste (dst src : positive) (box : Z * Z) (mask : positive) : M unit :=
  s <- deref src ;;
  m <- deref mask ;;
  d <- deref dst ;;
  d' <- lift (pasted d s m (fst box) (snd box)) ;;
  store dst d'.

(** The frame [Image.open] shows for an ICO file: the largest one. *)
Fixpoint largest_frame (frames : list ImageData) : option ImageData :=
  match frames with
  | [] => None
  | f :: rest =>
      match largest_frame rest with
      | Some g =>
          if im_width f * im_height f <? im_width g * im_height g
          then Some g else Some f
      | None => Some f
      end
  end.

(** What a file decodes to, when it holds an image Pillow can load. *)
Definition decode (f : FileData) : option ImageData :=
  match f with
  | PngFile im => if wf_imageb im then Some im else None
  | IcoFile frames =>
      match largest_frame frames with
      | Some im => if wf_imageb im then Some im else None
      | None => None
      end
  | OtherFile _ => None
  end.

(** [path.exists()] *)
Definition Path_exists (p : Path) : M bool :=
  fun w => (Ok (bool_decide (is_Some (fs w !! p))), w).

(** [Image.open(path)] *)
Definition Image_open (p : Path) : M positive :=
  fun w =>
    match fs w !! p with
    | None => (Raise (FileNotFoundError (path_str p)), w)
    | Some f =>
        match decode f with
        | Some d => alloc d w
        | None => (Raise (UnidentifiedImageError (path_str p)), w)
        end
    end.

Definition write_file (p : Path) (f : FileData) : M unit :=
  fun w => (Ok tt, set_fs (<[p := f]> (fs w)) w).

Definition png_modes : list string :=
  ["1"; "L"; "LA"; "I"; "I;16"; "P"; "RGB"; "RGBA"].

(** [img.save(path, format="PNG", optimize=True)] *)
Definition Image_save_png (l : positive) (p : Path) : M unit :=
  d <- deref l ;;
  if bool_decide (im_mode d ∈ png_modes) then write_file p (PngFile d)
  else raise (OSError ("cannot write mode " +:+ im_mode d +:+ " as PNG")).

(** Insertion of a size into a list sorted without repeats. *)
Fixpoint insert_size (s : Z * Z) (l : list (Z * Z)) : list (Z * Z) :=
  match l with
  | [] => [s]
  | t :: l' =>
      if (fst s <? fst t) || ((fst s =? fst t) && (snd s <? snd t)) then s :: l
      else if (fst s =? fst t) && (snd s =? snd t) then l
      else t :: insert_size s l'
  end.

(** [sorted(set(sizes))] *)
Definition sorted_set (sizes : list (Z * Z)) : list (Z * Z) :=
  foldr insert_size [] sizes.

(** The frames the ICO writer stores for image [d]: one per requested
    size, in increasing order, leaving out every size larger than the
    image itself or larger than 256; the image itself when its size is
    the requested one, a thumbnail of it otherwise. *)
Definition ico_frames (d : ImageData) (sizes : list (Z * Z)) : list ImageData :=
  omap (fun s : Z * Z =>
          if (im_width d <? fst s) || (im_height d <? snd s) ||
             (256 <? fst s) || (256 <? snd s)
          then None
          else if (im_width d =? fst s) && (im_height d =? snd s) then Some d
          else Some (thumbnail d s))
       (sorted_set sizes).

(** [img.save(path, format="ICO", sizes=sizes)] *)
Definition Image_save_ico (l : positive) (p : Path) (sizes : list (Z * Z)) : M unit :=
  d <- deref l ;;
  if bool_decide (im_mode d ∈ png_modes) then write_file p (IcoFile (ico_frames d sizes))
  else raise (OSError ("cannot write mode " +:+ im_mode d +:+ " as PNG")).

(** [print(a, b)] *)
Definition print (line : string) : M unit :=
  fun w => (Ok tt, set_stdout (stdout w ++ [line]) w).

End Operations.

(** How the interpreter ends a script: status 0 on a normal return; on an
    uncaught exception status 1 and a message on the error stream (the
    argument of [SystemExit]; for any other exception the last line of the
    traceback, the lines above it and the quoting of paths left out). *)
Definition exn_message (e : exn) : string :=
  match e with
  | SystemExit msg => msg
  | ValueError msg => "ValueError: " +:+ msg
  | OverflowError msg => "OverflowError: " +:+ msg
  | ZeroDivisionError msg => "ZeroDivisionError: " +:+ msg
  | MemoryError => "MemoryError"
  | IndexError msg => "IndexError: " +:+ msg
  | OSError msg => "OSError: " +:+ msg
  | FileNotFoundError p => "FileNotFoundError: [Errno 2] No such file or directory: " +:+ p
  | UnidentifiedImageError p => "PIL.UnidentifiedImageError: cannot identify image file " +:+ p
  | ReferenceError => "ReferenceError"
  end.

Record Outcome : Type := {
  exit_status : Z;
  stderr : option string;
  final : World
}.

Definition run_script (main : M unit) (w : World) : Outcome :=
  match main w with
  | (Ok _, w') => {| exit_status := 0; stderr := None; final := w' |}
  | (Raise e, w') => {| exit_status := 1; stderr := Some (exn_message e); final := w' |}
  end.

End Pillow.

(** ** scripts/gen_icons_from_tools.py *)

Module GenIcons.
Import Py Pillow.

(** Lines 15-17 of [_contain_rgba]: [scale], [dst_w], [dst_h]. *)
Definition scaled_size (src_w src_h size : Z) : Result (pyfloat * Z * Z) :=
  rbind (int_truediv size src_w) (fun a =>
  rbind (int_truediv size src_h) (fun b =>
  let scale := py_min a b in
  rbind (int_mul_float src_w scale) (fun x =>
  rbind (float_round x) (fun rx =>
  let dst_w := py_max 1 (py_int rx) in
  rbind (int_mul_float src_h scale) (fun y =>
  rbind (float_round y) (fun ry =>
  let dst_h := py_max 1 (py_int ry) in
  Ok (scale, dst_w, dst_h))))))).

(** The local variables of [_contain_rgba] once line 22 has run. *)
Record Locals : Type := {
  scale : pyfloat;
  dst_w : Z;
  dst_h : Z;
  ox : Z;
  oy : Z
}.

Definition contain_locals (src_w src_h size : Z) : Result Locals :=
  rbind (scaled_size src_w src_h size) (fun g =>
  let '(scale, dst_w, dst_h) := g in
  Ok {| scale := scale; dst_w := dst_w; dst_h := dst_h;
        ox := py_floordiv (size - dst_w) 2;
        oy := py_floordiv (size - dst_h) 2 |}).

Definition repo : Path := ["e:"; "Code"; "ntruth-tools"].
Definition icons_dir : Path := path_div (path_div repo "src-tauri") "icons".
Definition src : Path := path_div icons_dir "tools.png".
Definition out_ico : Path := path_div icons_dir "icon.ico".
Definition out_png : Path := path_div icons_dir "icon.png".
Definition ico_sizes : list Z := [16; 24; 32; 48; 64; 128; 256].

Section Script.
Context `{Kernels}.

Definition _contain_rgba (img : positive) (size : Z) : M positive :=
  img <- Image_convert img "RGBA" ;;
  sz <- Image_size img ;;
  let '(src_w, src_h) := sz in
  if (src_w =? 0) || (src_h =? 0)
  then raise (ValueError "Invalid source image size")
  else
    g <- lift (scaled_size src_w src_h size) ;;
    let '(scale, dst_w, dst_h) := g in
    resized <- Image_resize img (dst_w, dst_h) ;;
    canvas <- Image_new "RGBA" (size, size) (0, 0, 0, 0) ;;
    let ox := py_floordiv (size - dst_w) 2 in
    let oy := py_floordiv (size - dst_h) 2 in
    Image_paste canvas resized (ox, oy) resized ;;
    ret canvas.

(** The exception of line 13. *)
Definition InvalidInput : exn := ValueError "Invalid source image size".

(** The canvas of line 20: [size] by [size], fully transparent. *)
Definition transparent (size : Z) : ImageData :=
  {| im_mode := "RGBA"; im_width := size; im_height := size;
     im_px := fun _ _ => (0, 0, 0, 0) |}.

(** [canvas] is the transparent square of side [size] onto which an image
    of [dst_w] by [dst_h] pixels was pasted, through its own alpha, with
    its upper left corner at [(ox, oy)]. *)
Definition placed (canvas : ImageData) (size : Z) (g : Locals) : Prop :=
  im_mode canvas = "RGBA" /\ im_width canvas = size /\ im_height canvas = size /\
  exists r, im_width r = dst_w g /\ im_height r = dst_h g /\
    im_px canvas = paste_px (transparent size) r r (ox g) (oy g).

(** [_contain_rgba l size] in a world where [l] holds [img], with every
    step of the state monad written out (lemma [contain_rgba_run]). *)
Definition contain_run (img : ImageData) (size : Z) (w : World) : Result positive * World :=
  let img1 := converted img "RGBA" in
  let l1 := fresh (dom (heap w)) in
  let w1 := set_heap (<[l1 := img1]> (heap w)) w in
  if (im_width img =? 0) || (im_height img =? 0)
  then (Raise (ValueError "Invalid source image size"), w1)
  else
    match scaled_size (im_width img) (im_height img) size with
    | Raise e => (Raise e, w1)
    | Ok (scale, dst_w, dst_h) =>
        match resized img1 dst_w dst_h with
        | Raise e => (Raise e, w1)
        | Ok r =>
            let l2 := fresh (dom (heap w1)) in
            let w2 := set_heap (<[l2 := r]> (heap w1)) w1 in
            match blank "RGBA" size size (0, 0, 0, 0) with
            | Raise e => (Raise e, w2)
            | Ok b =>
                let l3 := fresh (dom (heap w2)) in
                let w3 := set_heap (<[l3 := b]> (heap w2)) w2 in
                match pasted b r r (py_floordiv (size - dst_w) 2)
                             (py_floordiv (size - dst_h) 2) with
                | Raise e => (Raise e, w3)
                | Ok p => (Ok l3, set_heap (<[l3 := p]> (heap w3)) w3)
                end
            end
        end
    end.

(** What a run hands to its caller: the image the returned object holds,
    or the exception. *)
Definition outcome (r : Result positive * World) : Result ImageData :=
  match fst r with
  | Ok c =>
      match heap (snd r) !! c with
      | Some d => Ok d
      | None => Raise ReferenceError
      end
  | Raise e => Raise e
  end.

(** The image [_contain_rgba] returns, as a function of the source image
    and of [size] alone (lemma [contain_run_outcome]). *)
Definition contain_result (img : ImageData) (size : Z) : Result ImageData :=
  if (im_width img =? 0) || (im_height img =? 0) then Raise InvalidInput
  else
    rbind (scaled_size (im_width img) (im_height img) size) (fun g =>
    let '(scale, dst_w, dst_h) := g in
    rbind (resized (converted img "RGBA") dst_w dst_h) (fun r =>
    rbind (blank "RGBA" size size (0, 0, 0, 0)) (fun b =>
    pasted b r r (py_floordiv (size - dst_w) 2) (py_floordiv (size - dst_h) 2)))).

(** The image held by [ico_imgs[0]], if any. *)
Definition first_image (ico_imgs : list positive) (w : World) : option ImageData :=
  match ico_imgs !! 0%nat with
  | Some first => heap w !! first
  | None => None
  end.

(** Lines 50-54 of [main]: the ICO is saved from [ico_imgs[0]]. *)
Definition save_ico (ico_imgs : list positive) : M unit :=
  match ico_imgs !! 0%nat with
  | None => raise (IndexError "list index out of range")
  | Some first => Image_save_ico first out_ico (map (fun s => (s, s)) ico_sizes)
  end.

Definition main : M unit :=
  found <- Path_exists src ;;
  if negb found
  then raise (SystemExit ("Missing source icon: " +:+ path_str src))
  else
    base <- Image_open src ;;
    png512 <- _contain_rgba base 512 ;;
    Image_save_png png512 out_png ;;
    ico_imgs <- mapM (fun s => _contain_rgba base s) ico_sizes ;;
    save_ico ico_imgs ;;
    print ("Wrote " +:+ path_str out_png) ;;
    print ("Wrote " +:+ path_str out_ico).

End Script.

(** The arithmetic of the contain resize as the specification words it:
    [scale = min(size / width, size / height)],
    [dst = max(1, round(side * scale))], [offset = (size - dst) // 2],
    with the smaller of two floats, the larger of two integers and the
    floor of a half written directly. *)
Module Spec.

Definition smaller (x y : pyfloat) : pyfloat :=
  if float_lt y x then y else x.

Definition half_floor (n : Z) : Z := (n - n mod 2) / 2.

Definition scaled_side (side : Z) (scale : pyfloat) : Result Z :=
  rbind (int_mul_float side scale) (fun x =>
  rbind (float_round x) (fun r => Ok (Z.max 1 r))).

Definition contain_geometry (width height size : Z) : Result Locals :=
  rbind (int_truediv size width) (fun a =>
  rbind (int_truediv size height) (fun b =>
  rbind (scaled_side width (smaller a b)) (fun w =>
  rbind (scaled_side height (smaller a b)) (fun h =>
  Ok {| scale := smaller a b; dst_w := w; dst_h := h;
        ox := half_floor (size - w); oy := half_floor (size - h) |})))).

End Spec.

End GenIcons.

(** ** scripts/gen_tray_icons.py *)

Module GenTray.
Import Py Pillow.

Definition src : Path :=
  ["e:"; "Code"; "ntruth-tools"; "src-tauri"; "icons"; "tools.png"].
Definition out16 : Path := with_name src "tools-16.png".
Definition out32 : Path := with_name src "tools-32.png".

Section Script.
Context `{Kernels}.

Definition main : M unit :=
  opened <- Image_open src ;;
  img <- Image_convert opened "RGBA" ;;
  img16 <- Image_resize img (16, 16) ;;
  img32 <- Image_resize img (32, 32) ;;
  Image_save_png img16 out16 ;;
  Image_save_png img32 out32 ;;
  print ("Wrote " +:+ path_str out16) ;;
  print ("Wrote " +:+ path_str out32).

End Script.

End GenTray.

(** ** A concrete instance, to run the model on inputs *)

Module Reference.
Import Py Pillow.

(** Nearest-neighbour resampling, a hard mask on the fourth channel, no
    change of channels between modes, the largest C [int] as side limit. *)
#[export] Program Instance kernels : Kernels := {|
  max_dim := INT_MAX;
  convert_px := fun _ _ p => p;
  resample := fun d w h x y =>
    im_px d (x * im_width d / w) (y * im_height d / h);
  blend := fun under over mask =>
    if 0 <? snd mask then over else under;
  thumbnail := fun d s =>
    {| im_mode := im_mode d; im_width := fst s; im_height := snd s;
       im_px := fun x y => im_px d (x * im_width d / fst s) (y * im_height d / snd s) |}
|}.
Next Obligation. reflexivity. Qed.

Definition solid (mode : string) (w h : Z) (p : Pixel) : ImageData :=
  {| im_mode := mode; im_width := w; im_height := h; im_px := fun _ _ => p |}.

(** A world holding one image object and nothing else. *)
Definition one_image (d : ImageData) : World :=
  {| heap := {[ 1%positive := d ]}; fs := ∅; stdout := [] |}.

(** A world whose only file is the source icon. *)
Definition one_file (p : Path) (d : ImageData) : World :=
  {| heap := ∅; fs := {[ p := PngFile d ]}; stdout := [] |}.

(** A 100 by 50 opaque image, a 40 by 40 one, one of width zero and a
    single pixel. *)
Definition wide : ImageData := solid "RGB" 100 50 (10, 20, 30, 255).
Definition square : ImageData := solid "RGB" 40 40 (10, 20, 30, 255).
Definition degenerate : ImageData := solid "RGB" 0 100 (10, 20, 30, 255).
Definition dot : ImageData := solid "RGB" 1 1 (10, 20, 30, 255).

(** A world with no image object, no file and no output. *)
Definition empty_world : World := {| heap := ∅; fs := ∅; stdout := [] |}.

(** A world with two image objects. *)
Definition two_images (a b : ImageData) : World :=
  {| heap := {[ 1%positive := a; 2%positive := b ]}; fs := ∅; stdout := [] |}.

(** A 1000 by 1 image. *)
Definition thin : ImageData := solid "RGB" 1000 1 (10, 20, 30, 255).

(** A world whose only file, at [p], holds no image. *)
Definition not_an_image (p : Path) : World :=
  {| heap := ∅; fs := {[ p := OtherFile [110; 111] ]}; stdout := [] |}.

End Reference.

(** ** The machine's binary64, to cross-check the float model *)

Module Machine.
Import Py.

Definition to_spec (x : pyfloat) : SpecFloat.spec_float :=
  match x with
  | Ffinite 0 _ => SpecFloat.S754_zero false
  | Ffinite (Z.pos m) e => SpecFloat.S754_finite false m e
  | Ffinite (Z.neg m) e => SpecFloat.S754_finite true m e
  | Finf s => SpecFloat.S754_infinity s
  | Fnan => SpecFloat.S754_nan
  end.

Definition machine_float (a : Z) : PrimFloat.float :=
  PrimFloat.of_uint63 (Uint63.of_Z a).

Definition machine_float_div (a b : Z) : PrimFloat.float :=
  PrimFloat.div (machine_float a) (machine_float b).

Definition machine_div (a b : Z) : SpecFloat.spec_float :=
  FloatOps.Prim2SF (machine_float_div a b).

Definition machine_mul (a : Z) (x : PrimFloat.float) : SpecFloat.spec_float :=
  FloatOps.Prim2SF (PrimFloat.mul (machine_float a) x).

Definition result_option {A} (r : Result A) : option A :=
  match r with
  | Ok a => Some a
  | Raise _ => None
  end.

(** [round] of a machine float, read through its mantissa and exponent. *)
Definition machine_round (x : PrimFloat.float) : option Z :=
  match FloatOps.Prim2SF x with
  | SpecFloat.S754_zero _ => Some 0
  | SpecFloat.S754_finite s m e =>
      let r := rne_div (Z.pos m * 2 ^ Z.max 0 e) (2 ^ Z.max 0 (- e)) in
      Some (if s then - r else r)
  | _ => None
  end.

(** Lines 15-17 of [_contain_rgba] on the machine's floats. *)
Definition machine_scaled_size (src_w src_h size : Z) : option (Z * Z) :=
  let a := machine_float_div size src_w in
  let b := machine_float_div size src_h in
  let scale := if PrimFloat.ltb b a then b else a in
  match machine_round (PrimFloat.mul (machine_float src_w) scale),
        machine_round (PrimFloat.mul (machine_float src_h) scale) with
  | Some rx, Some ry => Some (py_max 1 rx, py_max 1 ry)
  | _, _ => None
  end.

(** The model and the machine agree on one input. *)
Definition agrees (src_w src_h size : Z) : bool :=
  match GenIcons.scaled_size src_w src_h size, machine_scaled_size src_w src_h size with
  | Ok (_, dst_w, dst_h), Some (mw, mh) => (dst_w =? mw) && (dst_h =? mh)
  | _, _ => false
  end.

(** The sides of the source and the sizes of the cross-check. *)
Definition grid_sides : list Z :=
  [1; 2; 3; 5; 7; 12; 50; 99; 100; 256; 1000; 1920; 2147483647].
Definition grid_sizes : list Z :=
  [1; 3; 7; 16; 24; 32; 48; 64; 128; 256; 512; 2147483647].

End Machine.

(** ** Real values of floats, for the error analysis *)

Module FloatValue.
Import Py.
Local Open Scope R_scope.

Definition pow2 (e : Z) : R := powerRZ 2 e.

(** The real number a finite float stands for. *)
Definition B2R (m e : Z) : R := IZR m * pow2 e.

(** Unit roundoff of binary64. *)
Definition u64 : R := pow2 (-53).

(** [v] is [x] up to one rounding. *)
Definition approx (v x : R) : Prop := x * (1 - u64) <= v <= x * (1 + u64).

End FloatValue.

(** * Facts about the float model *)

Section FloatFacts.
Import Py FloatValue.
Local Open Scope R_scope.

Lemma rne_div_nearest a b :
  (0 < b)%Z -> (- b <= 2 * (rne_div a b * b - a) <= b)%Z.
Proof.
  intros Hb. unfold rne_div.
  pose proof (Z.div_mod a b ltac:(lia)) as Hdm.
  pose proof (Z.mod_pos_bound a b Hb) as Hr.
  repeat match goal with
         | |- context [if ?c then _ else _] => destruct c eqn:?
         end; nia.
Qed.

Lemma pow2_pos e : 0 < pow2 e.
Proof. apply powerRZ_lt. lra. Qed.

Lemma pow2_add a b : pow2 (a + b) = pow2 a * pow2 b.
Proof. apply powerRZ_add. lra. Qed.

Lemma pow2_IZR k : (0 <= k)%Z -> IZR (2 ^ k) = pow2 k.
Proof.
  intros Hk. rewrite <- (Z2Nat.id k Hk) at 1.
  rewrite <- pow_IZR, pow_powerRZ, Z2Nat.id by exact Hk. reflexivity.
Qed.

Lemma pow2_ge_1 k : (0 <= k)%Z -> 1 <= pow2 k.
Proof.
  intros Hk. rewrite <- pow2_IZR by exact Hk.
  apply IZR_le. pose proof (Z.pow_pos_nonneg 2 k ltac:(lia) Hk). lia.
Qed.

Lemma pow2_le a b : (a <= b)%Z -> pow2 a <= pow2 b.
Proof.
  intros Hab. replace b with (a + (b - a))%Z by lia. rewrite pow2_add.
  pose proof (pow2_pos a). pose proof (pow2_ge_1 (b - a) ltac:(lia)). nra.
Qed.

Lemma pow2_opp_l e : pow2 (- e) * pow2 e = 1.
Proof. rewrite <- pow2_add. replace (- e + e)%Z with 0%Z by lia. reflexivity. Qed.

Lemma pow2_max_split e : pow2 (Z.max 0 e) = pow2 e * pow2 (Z.max 0 (- e)).
Proof. rewrite <- pow2_add. f_equal. lia. Qed.

Lemma u64_val : u64 = / 9007199254740992.
Proof. unfold u64, pow2. simpl. lra. Qed.

Lemma pow2_64 : pow2 64 = 18446744073709551616.
Proof. unfold pow2. simpl. lra. Qed.

Lemma pow2_m64 : pow2 (-64) = / 18446744073709551616.
Proof. unfold pow2. simpl. lra. Qed.

Lemma Rabs_le_inv x a : Rabs x <= a -> - a <= x <= a.
Proof. unfold Rabs. destruct (Rcase_abs x); lra. Qed.

(** The integer [rne_div a b] is within one half of [a / b]. *)
Lemma rne_div_R a b :
  (0 < b)%Z -> Rabs (IZR (rne_div a b) - IZR a / IZR b) <= / 2.
Proof.
  intros Hb. pose proof (rne_div_nearest a b Hb) as [H1 H2].
  apply IZR_le in H1, H2. apply IZR_lt in Hb.
  rewrite opp_IZR in H1. rewrite mult_IZR, minus_IZR, mult_IZR in H1, H2.
  set (q := IZR (rne_div a b)) in *. set (A := IZR a) in *. set (B := IZR b) in *.
  replace (q - A / B) with ((q * B - A) / B) by (field; lra).
  apply Rabs_le. split.
  - apply Rmult_le_reg_r with B; [lra|].
    unfold Rdiv. rewrite Rmult_assoc, Rinv_l by lra. lra.
  - apply Rmult_le_reg_r with B; [lra|].
    unfold Rdiv. rewrite Rmult_assoc, Rinv_l by lra. lra.
Qed.

(** Scaling numerator and denominator by powers of two scales the ratio. *)
Lemma scaled_ratio n d e :
  (0 < d)%Z ->
  IZR (n * 2 ^ Z.max 0 (- e)) / IZR (d * 2 ^ Z.max 0 e) = IZR n / IZR d * pow2 (- e).
Proof.
  intros Hd. apply IZR_lt in Hd.
  rewrite !mult_IZR, !pow2_IZR by lia.
  rewrite (pow2_max_split e).
  pose proof (pow2_opp_l e) as He.
  pose proof (pow2_pos e). pose proof (pow2_pos (Z.max 0 (- e))).
  set (P := pow2 (Z.max 0 (- e))) in *. set (E := pow2 e) in *.
  set (M := pow2 (- e)) in *.
  replace (IZR n / IZR d * M) with (IZR n / IZR d * M * (E * P) / (E * P))
    by (field; lra).
  replace (IZR n / IZR d * M * (E * P)) with (IZR n / IZR d * P * (M * E)) by ring.
  rewrite He. field. lra.
Qed.

Lemma Zlog2_R n : (0 < n)%Z -> pow2 (Z.log2 n) <= IZR n < pow2 (Z.log2 n + 1).
Proof.
  intros Hn. pose proof (Z.log2_spec n Hn) as [H1 H2].
  pose proof (Z.log2_nonneg n) as H0.
  rewrite <- !pow2_IZR by lia. split; [apply IZR_le | apply IZR_lt]; lia.
Qed.

(** [ilog2_ratio n d] is the binade of [n / d]. *)
Lemma ilog2_ratio_spec n d :
  (0 < n)%Z -> (0 < d)%Z ->
  pow2 (ilog2_ratio n d) <= IZR n / IZR d < pow2 (ilog2_ratio n d + 1).
Proof.
  intros Hn Hd. unfold ilog2_ratio.
  pose proof (Zlog2_R n Hn) as [Hn1 Hn2]. pose proof (Zlog2_R d Hd) as [Hd1 Hd2].
  set (ln := Z.log2 n) in *. set (ld := Z.log2 d) in *.
  assert (HD : 0 < IZR d) by (apply IZR_lt; lia).
  assert (Hlo : pow2 (ln - ld - 1) < IZR n / IZR d).
  { apply Rmult_lt_reg_r with (IZR d); [exact HD|].
    replace (IZR n / IZR d * IZR d) with (IZR n) by (field; lra).
    apply Rlt_le_trans with (pow2 (ln - ld - 1) * pow2 (ld + 1)).
    - apply Rmult_lt_compat_l; [apply pow2_pos | exact Hd2].
    - rewrite <- pow2_add. replace (ln - ld - 1 + (ld + 1))%Z with ln by lia.
      exact Hn1. }
  assert (Hhi : IZR n / IZR d < pow2 (ln - ld + 1)).
  { apply Rmult_lt_reg_r with (IZR d); [exact HD|].
    replace (IZR n / IZR d * IZR d) with (IZR n) by (field; lra).
    apply Rlt_le_trans with (pow2 (ln + 1)); [exact Hn2|].
    replace (ln + 1)%Z with (ln - ld + 1 + ld)%Z by lia. rewrite pow2_add.
    apply Rmult_le_compat_l; [left; apply pow2_pos | exact Hd1]. }
  pose proof (pow2_pos (Z.max 0 (- (ln - ld)))) as HP.
  assert (Hx : IZR n / IZR d * (IZR d * pow2 (Z.max 0 (- (ln - ld))))
               = IZR n * pow2 (Z.max 0 (- (ln - ld)))) by (field; lra).
  destruct (_ <=? _)%Z eqn:Ht.
  - split; [| exact Hhi].
    apply Z.leb_le in Ht. apply IZR_le in Ht.
    rewrite !mult_IZR, !pow2_IZR in Ht by lia.
    rewrite (pow2_max_split (ln - ld)) in Ht.
    apply Rmult_le_reg_r with (IZR d * pow2 (Z.max 0 (- (ln - ld)))); [nra|].
    rewrite Hx. lra.
  - replace (ln - ld - 1 + 1)%Z with (ln - ld)%Z by lia.
    split; [left; exact Hlo|].
    apply Z.leb_gt in Ht. apply IZR_lt in Ht.
    rewrite !mult_IZR, !pow2_IZR in Ht by lia.
    rewrite (pow2_max_split (ln - ld)) in Ht.
    apply Rmult_lt_reg_r with (IZR d * pow2 (Z.max 0 (- (ln - ld)))); [nra|].
    rewrite Hx. lra.
Qed.

(** In the normal range rounding a positive ratio gives a finite float
    with relative error at most [u64]. *)
Lemma round_pos_rel_error n d :
  (0 < n)%Z -> (0 < d)%Z ->
  pow2 (-1022) <= IZR n / IZR d < pow2 1023 ->
  exists m e, round_pos n d = Ffinite m e /\
    Rabs (B2R m e - IZR n / IZR d) <= IZR n / IZR d * u64.
Proof.
  intros Hn Hd [Hlo Hhi]. unfold round_pos.
  pose proof (ilog2_ratio_spec n d Hn Hd) as [Hl1 Hl2].
  set (l := ilog2_ratio n d) in *.
  assert (Hl_lo : (-1022 <= l)%Z).
  { destruct (Z_lt_le_dec l (-1022)) as [Hlt|]; [|lia].
    exfalso. pose proof (pow2_le (l + 1) (-1022) ltac:(lia)). lra. }
  assert (Hl_hi : (l <= 1022)%Z).
  { destruct (Z_lt_le_dec 1022 l) as [Hlt|]; [|lia].
    exfalso. pose proof (pow2_le 1023 l ltac:(lia)). lra. }
  rewrite Z.max_l by lia.
  set (e := (l - 52)%Z) in *.
  replace ((971 <? e)%Z) with false by (symmetry; apply Z.ltb_ge; lia).
  replace ((e =? 971)%Z) with false by (symmetry; apply Z.eqb_neq; lia).
  cbn [orb andb].
  eexists _, _. split; [reflexivity|].
  assert (HD : (0 < d * 2 ^ Z.max 0 e)%Z).
  { apply Z.mul_pos_pos; [lia|]. apply Z.pow_pos_nonneg; lia. }
  pose proof (rne_div_R (n * 2 ^ Z.max 0 (- e)) (d * 2 ^ Z.max 0 e) HD) as Hr.
  rewrite scaled_ratio in Hr by exact Hd.
  set (m := rne_div _ _) in *. set (x := IZR n / IZR d) in *.
  unfold B2R, u64.
  pose proof (pow2_opp_l e) as He. pose proof (pow2_pos e) as HE.
  replace (IZR m * pow2 e - x) with ((IZR m - x * pow2 (- e)) * pow2 e)
    by (rewrite Rmult_minus_distr_r, Rmult_assoc, He; ring).
  rewrite Rabs_mult, (Rabs_pos_eq (pow2 e)) by lra.
  apply Rle_trans with (/ 2 * pow2 e).
  - apply Rmult_le_compat_r; lra.
  - replace (/ 2) with (pow2 (-1)) by (unfold pow2; simpl; lra).
    rewrite <- pow2_add. replace (-1 + e)%Z with (l + -53)%Z by lia.
    rewrite pow2_add. apply Rmult_le_compat_r; [left; apply pow2_pos | exact Hl1].
Qed.

(** The same for [round_ratio], on the range the scripts stay in. *)
Lemma round_ratio_approx n d :
  (0 < n)%Z -> (0 < d)%Z ->
  pow2 (-64) <= IZR n / IZR d <= pow2 64 ->
  exists m e, round_ratio n d = Ffinite m e /\ approx (B2R m e) (IZR n / IZR d).
Proof.
  intros Hn Hd [Hlo Hhi].
  destruct (round_pos_rel_error n d Hn Hd) as (m & e & Hr & Herr).
  { pose proof (pow2_le (-1022) (-64) ltac:(lia)).
    pose proof (pow2_le 64 1022 ltac:(lia)).
    assert (pow2 1022 < pow2 1023).
    { replace 1023%Z with (1022 + 1)%Z by lia. rewrite pow2_add.
      pose proof (pow2_pos 1022). replace (pow2 1) with 2 by (unfold pow2; simpl; lra).
      lra. }
    lra. }
  exists m, e. split.
  - unfold round_ratio. replace (n ?= 0)%Z with Gt by (symmetry; apply Z.compare_gt_iff; lia).
    exact Hr.
  - unfold approx. apply Rabs_le_inv in Herr. lra.
Qed.

Lemma approx_pos v x : 0 < x -> approx v x -> 0 < v.
Proof. unfold approx. rewrite u64_val. intros Hx [H1 _]. nra. Qed.

Lemma B2R_pos m e : 0 < B2R m e -> (0 < m)%Z.
Proof.
  unfold B2R. intros Hv. pose proof (pow2_pos e).
  destruct (Z_lt_le_dec 0 m) as [|Hle]; [assumption|].
  apply IZR_le in Hle. nra.
Qed.

(** Division of two positive integers below [2^31]. *)
Lemma int_truediv_approx a b :
  (1 <= a <= 2147483647)%Z -> (1 <= b <= 2147483647)%Z ->
  exists m e, int_truediv a b = Ok (Ffinite m e) /\
    approx (B2R m e) (IZR a / IZR b).
Proof.
  intros Ha Hb. unfold int_truediv.
  replace (b =? 0)%Z with false by (symmetry; apply Z.eqb_neq; lia).
  replace (Z.sgn b) with 1%Z by lia. rewrite Z.mul_1_r, Z.abs_eq by lia.
  destruct (round_ratio_approx a b) as (m & e & Hr & Happ); [lia | lia | |].
  - rewrite pow2_64, pow2_m64.
    assert (HA : 1 <= IZR a <= 2147483647) by (split; apply IZR_le; lia).
    assert (HB : 1 <= IZR b <= 2147483647) by (split; apply IZR_le; lia).
    split.
    + apply Rmult_le_reg_r with (IZR b); [lra|].
      replace (IZR a / IZR b * IZR b) with (IZR a) by (field; lra). nra.
    + apply Rmult_le_reg_r with (IZR b); [lra|].
      replace (IZR a / IZR b * IZR b) with (IZR a) by (field; lra). nra.
  - exists m, e. rewrite Hr. split; [reflexivity | exact Happ].
Qed.

Lemma int_to_float_approx a :
  (1 <= a <= 2147483647)%Z ->
  exists m e, int_to_float a = Ok (Ffinite m e) /\ approx (B2R m e) (IZR a).
Proof.
  intros Ha. unfold int_to_float.
  destruct (round_ratio_approx a 1) as (m & e & Hr & Happ); [lia | lia | |].
  - rewrite pow2_64, pow2_m64.
    assert (HA : 1 <= IZR a <= 2147483647) by (split; apply IZR_le; lia).
    unfold Rdiv. rewrite Rinv_1. lra.
  - exists m, e. rewrite Hr. split; [reflexivity|].
    unfold Rdiv in Happ. rewrite Rinv_1, Rmult_1_r in Happ. exact Happ.
Qed.

(** The product of two positive finite floats, away from the ends of
    the exponent range. *)
Lemma float_mul_approx m1 e1 m2 e2 :
  0 < B2R m1 e1 -> 0 < B2R m2 e2 ->
  pow2 (-64) <= B2R m1 e1 * B2R m2 e2 <= pow2 64 ->
  exists m e, float_mul (Ffinite m1 e1) (Ffinite m2 e2) = Ffinite m e /\
    approx (B2R m e) (B2R m1 e1 * B2R m2 e2).
Proof.
  intros H1 H2 Hrange. cbn [float_mul].
  pose proof (B2R_pos _ _ H1) as Hm1. pose proof (B2R_pos _ _ H2) as Hm2.
  set (s := (e1 + e2)%Z) in *.
  assert (Hval : IZR (m1 * m2 * 2 ^ Z.max 0 s) / IZR (2 ^ Z.max 0 (- s))
                 = B2R m1 e1 * B2R m2 e2).
  { replace (2 ^ Z.max 0 (- s))%Z with (1 * 2 ^ Z.max 0 (- s))%Z by lia.
    replace (Z.max 0 s) with (Z.max 0 (- (- s))) by lia.
    rewrite scaled_ratio by lia.
    unfold B2R, s. rewrite Z.opp_involutive, pow2_add, mult_IZR. field. }
  destruct (round_ratio_approx (m1 * m2 * 2 ^ Z.max 0 s) (2 ^ Z.max 0 (- s)))
    as (m & e & Hr & Happ).
  - apply Z.mul_pos_pos; [apply Z.mul_pos_pos; lia|]. apply Z.pow_pos_nonneg; lia.
  - apply Z.pow_pos_nonneg; lia.
  - rewrite Hval. exact Hrange.
  - exists m, e. rewrite Hval in Happ. split; assumption.
Qed.

(** [round] of a finite float is an integer within one half of it. *)
Lemma float_round_near m e :
  exists r, float_round (Ffinite m e) = Ok r /\ Rabs (IZR r - B2R m e) <= / 2.
Proof.
  eexists. split; [reflexivity|].
  assert (HD : (0 < 2 ^ Z.max 0 (- e))%Z) by (apply Z.pow_pos_nonneg; lia).
  pose proof (rne_div_R (m * 2 ^ Z.max 0 e) (2 ^ Z.max 0 (- e)) HD) as Hr.
  replace (2 ^ Z.max 0 (- e))%Z with (1 * 2 ^ Z.max 0 (- e))%Z in Hr at 2 by lia.
  replace (Z.max 0 e) with (Z.max 0 (- (- e))) in Hr at 2 by lia.
  rewrite scaled_ratio in Hr by lia.
  rewrite Z.opp_involutive in Hr. unfold B2R.
  replace (IZR m * pow2 e) with (IZR m / 1 * pow2 e) by (field). exact Hr.
Qed.

Lemma float_round_le m e k :
  B2R m e < IZR k + / 2 ->
  exists r, float_round (Ffinite m e) = Ok r /\ (r <= k)%Z.
Proof.
  intros Hv. destruct (float_round_near m e) as (r & Hr & Hn).
  exists r. split; [exact Hr|].
  apply Rabs_le_inv in Hn.
  destruct (Z_lt_le_dec k r) as [Hlt|]; [|assumption].
  exfalso. assert (IZR k + 1 <= IZR r) by (rewrite <- plus_IZR; apply IZR_le; lia). lra.
Qed.

Lemma float_round_eq m e k :
  IZR k - / 2 < B2R m e < IZR k + / 2 ->
  float_round (Ffinite m e) = Ok k.
Proof.
  intros [Hlo Hhi]. destruct (float_round_near m e) as (r & Hr & Hn).
  rewrite Hr. f_equal. apply Rabs_le_inv in Hn.
  destruct (Z_lt_le_dec k r) as [Hlt|Hle].
  { exfalso. assert (IZR k + 1 <= IZR r) by (rewrite <- plus_IZR; apply IZR_le; lia). lra. }
  destruct (Z_lt_le_dec r k) as [Hlt|Hge]; [|lia].
  exfalso. assert (IZR r + 1 <= IZR k) by (rewrite <- plus_IZR; apply IZR_le; lia). lra.
Qed.

(** [float_lt] compares the real values. *)
Lemma float_lt_spec m1 e1 m2 e2 :
  float_lt (Ffinite m1 e1) (Ffinite m2 e2) = true <-> B2R m1 e1 < B2R m2 e2.
Proof.
  cbn [float_lt]. unfold B2R.
  assert (Hs : forall a b, pow2 a = pow2 (Z.min a b) * pow2 (Z.max 0 (a - b))).
  { intros a b. rewrite <- pow2_add. f_equal. lia. }
  rewrite (Hs e1 e2), (Hs e2 e1), (Z.min_comm e2 e1).
  pose proof (pow2_pos (Z.min e1 e2)) as HP.
  rewrite <- (pow2_IZR (Z.max 0 (e1 - e2))), <- (pow2_IZR (Z.max 0 (e2 - e1))) by lia.
  set (A := (m1 * 2 ^ Z.max 0 (e1 - e2))%Z). set (B := (m2 * 2 ^ Z.max 0 (e2 - e1))%Z).
  replace (IZR m1 * (pow2 (Z.min e1 e2) * IZR (2 ^ Z.max 0 (e1 - e2))))
    with (pow2 (Z.min e1 e2) * IZR A) by (unfold A; rewrite mult_IZR; ring).
  replace (IZR m2 * (pow2 (Z.min e1 e2) * IZR (2 ^ Z.max 0 (e2 - e1))))
    with (pow2 (Z.min e1 e2) * IZR B) by (unfold B; rewrite mult_IZR; ring).
  rewrite Z.ltb_lt. split.
  - intros Hlt. apply Rmult_lt_compat_l; [exact HP | apply IZR_lt; exact Hlt].
  - intros Hlt. apply lt_IZR. apply Rmult_lt_reg_l with (pow2 (Z.min e1 e2)); assumption.
Qed.

End FloatFacts.

(** * The arithmetic of [_contain_rgba] *)

Section GeometryFacts.
Import Py FloatValue GenIcons.
Local Open Scope R_scope.

Lemma py_max_1 r : py_max 1 r = Z.max 1 r.
Proof. unfold py_max. destruct (Z.ltb_spec 1 r); lia. Qed.

Lemma ratio_bounds (a b : Z) :
  (1 <= a <= 2147483647)%Z -> (1 <= b <= 2147483647)%Z ->
  / 2147483647 <= IZR a / IZR b <= 2147483647.
Proof.
  intros Ha Hb.
  assert (HA : 1 <= IZR a <= 2147483647) by (split; apply IZR_le; lia).
  assert (HB : 1 <= IZR b <= 2147483647) by (split; apply IZR_le; lia).
  split.
  - apply Rmult_le_reg_r with (IZR b); [lra|].
    replace (IZR a / IZR b * IZR b) with (IZR a) by (field; lra).
    apply Rmult_le_reg_l with 2147483647; [lra|].
    rewrite <- Rmult_assoc, Rinv_r by lra. lra.
  - apply Rmult_le_reg_r with (IZR b); [lra|].
    replace (IZR a / IZR b * IZR b) with (IZR a) by (field; lra). nra.
Qed.

Lemma ratio_antitone (s a b : Z) :
  (1 <= s)%Z -> (1 <= a <= b)%Z -> IZR s / IZR b <= IZR s / IZR a.
Proof.
  intros Hs Hab.
  assert (HS : 1 <= IZR s) by (apply IZR_le; lia).
  assert (HA : 1 <= IZR a) by (apply IZR_le; lia).
  assert (HB : IZR a <= IZR b) by (apply IZR_le; lia).
  unfold Rdiv. apply Rmult_le_compat_l; [lra|].
  apply Rinv_le_contravar; lra.
Qed.

(** Line 15: [scale] is [size / max(src_w, src_h)] up to one rounding. *)
Lemma scale_approx w h size :
  (1 <= w <= 2147483647)%Z -> (1 <= h <= 2147483647)%Z ->
  (1 <= size <= 2147483647)%Z ->
  exists a b ms es,
    int_truediv size w = Ok a /\ int_truediv size h = Ok b /\
    py_min a b = Ffinite ms es /\
    approx (B2R ms es) (IZR size / IZR (Z.max w h)).
Proof.
  intros Hw Hh Hs.
  destruct (int_truediv_approx size w Hs Hw) as (ma & ea & Ha & [Ha1 Ha2]).
  destruct (int_truediv_approx size h Hs Hh) as (mb & eb & Hb & [Hb1 Hb2]).
  exists (Ffinite ma ea), (Ffinite mb eb).
  pose proof (ratio_bounds size w Hs Hw) as [Hxw _].
  pose proof (ratio_bounds size h Hs Hh) as [Hxh _].
  assert (Hu : 0 < 1 - u64 /\ 0 < u64) by (rewrite u64_val; lra).
  unfold py_min, approx.
  destruct (float_lt (Ffinite mb eb) (Ffinite ma ea)) eqn:Hlt.
  - apply float_lt_spec in Hlt. exists mb, eb.
    split; [exact Ha|]. split; [exact Hb|]. split; [reflexivity|].
    destruct (Z.max_spec w h) as [[Hwh ->] | [Hhw ->]]; [lra|].
    pose proof (ratio_antitone size h w ltac:(lia) ltac:(lia)).
    split; [|lra]. apply Rle_trans with (IZR size / IZR h * (1 - u64)); [|lra].
    apply Rmult_le_compat_r; lra.
  - assert (Hge : B2R ma ea <= B2R mb eb).
    { destruct (Rle_lt_dec (B2R ma ea) (B2R mb eb)) as [|Hc]; [assumption|].
      apply float_lt_spec in Hc. congruence. }
    exists ma, ea.
    split; [exact Ha|]. split; [exact Hb|]. split; [reflexivity|].
    destruct (Z.max_spec w h) as [[Hwh ->] | [Hhw ->]]; [|lra].
    pose proof (ratio_antitone size w h ltac:(lia) ltac:(lia)).
    split; [|lra]. apply Rle_trans with (IZR size / IZR w * (1 - u64)); [|lra].
    apply Rmult_le_compat_r; lra.
Qed.

(** Lines 16-17: a side [d] of the source, scaled and rounded, is at most
    [size], and exactly [size] for the longer side. *)
Lemma scaled_side_bounds d big size ms es :
  (1 <= d <= big)%Z -> (big <= 2147483647)%Z -> (1 <= size <= 2147483647)%Z ->
  approx (B2R ms es) (IZR size / IZR big) ->
  exists y r,
    int_mul_float d (Ffinite ms es) = Ok y /\ float_round y = Ok r /\
    (r <= size)%Z /\ (d = big -> r = size).
Proof.
  intros Hd Hbig Hs [Hs1 Hs2].
  destruct (int_to_float_approx d ltac:(lia)) as (md & ed & Hfd & [Hd1 Hd2]).
  pose proof (ratio_bounds size big Hs ltac:(lia)) as [HX1 HX2].
  set (X := IZR size / IZR big) in *. set (vs := B2R ms es) in *.
  set (vd := B2R md ed) in *.
  assert (HD : 1 <= IZR d <= 2147483647) by (split; apply IZR_le; lia).
  assert (HS : 1 <= IZR size <= 2147483647) by (split; apply IZR_le; lia).
  assert (HB : IZR d <= IZR big) by (apply IZR_le; lia).
  assert (Hu : 0 < 1 - u64 /\ 0 < u64 /\ u64 < 1) by (rewrite u64_val; lra).
  assert (HP1 : X <= IZR d * X) by nra.
  assert (HP2 : IZR d * X <= IZR size).
  { unfold X. replace (IZR d * (IZR size / IZR big)) with (IZR size * (IZR d / IZR big))
      by (field; lra).
    rewrite <- (Rmult_1_r (IZR size)) at 2. apply Rmult_le_compat_l; [lra|].
    apply Rmult_le_reg_r with (IZR big); [lra|].
    replace (IZR d / IZR big * IZR big) with (IZR d) by (field; lra). lra. }
  assert (HP3 : d = big -> IZR d * X = IZR size).
  { intros ->. unfold X. field. lra. }
  set (P := IZR d * X) in *.
  assert (Hvd : 0 < vd) by nra.
  assert (Hvs : 0 < vs) by nra.
  assert (Hup : vd * vs <= P * ((1 + u64) * (1 + u64))).
  { replace (P * ((1 + u64) * (1 + u64))) with ((IZR d * (1 + u64)) * (X * (1 + u64)))
      by (unfold P; ring).
    apply Rmult_le_compat; lra. }
  assert (Hlow : P * ((1 - u64) * (1 - u64)) <= vd * vs).
  { replace (P * ((1 - u64) * (1 - u64))) with ((IZR d * (1 - u64)) * (X * (1 - u64)))
      by (unfold P; ring).
    apply Rmult_le_compat; nra. }
  destruct (float_mul_approx md ed ms es Hvd Hvs) as (my & ey & Hmul & [Hy1 Hy2]).
  { fold vd vs. rewrite pow2_64, pow2_m64. rewrite u64_val in Hup, Hlow. lra. }
  fold vd vs in Hy1, Hy2. set (vy := B2R my ey) in *.
  assert (Hy_up : vy <= P * ((1 + u64) * (1 + u64) * (1 + u64))).
  { apply Rle_trans with (vd * vs * (1 + u64)); [exact Hy2|].
    replace (P * ((1 + u64) * (1 + u64) * (1 + u64)))
      with (P * ((1 + u64) * (1 + u64)) * (1 + u64)) by ring.
    apply Rmult_le_compat_r; lra. }
  assert (Hy_low : P * ((1 - u64) * (1 - u64) * (1 - u64)) <= vy).
  { apply Rle_trans with (vd * vs * (1 - u64)); [|exact Hy1].
    replace (P * ((1 - u64) * (1 - u64) * (1 - u64)))
      with (P * ((1 - u64) * (1 - u64)) * (1 - u64)) by ring.
    apply Rmult_le_compat_r; lra. }
  assert (Hlt : vy < IZR size + / 2) by (rewrite u64_val in Hy_up; lra).
  unfold int_mul_float. rewrite Hfd. cbn [rbind]. rewrite Hmul.
  destruct (float_round_le my ey size Hlt) as (r & Hr & Hle).
  exists (Ffinite my ey), r. split; [reflexivity|]. split; [exact Hr|].
  split; [exact Hle|].
  intros Heq. specialize (HP3 Heq).
  assert (Hgt : IZR size - / 2 < vy) by (rewrite u64_val in Hy_low; lra).
  rewrite (float_round_eq my ey size (conj Hgt Hlt)) in Hr. congruence.
Qed.

(** The locals of [_contain_rgba] for sides and sizes below [2^31]. *)
Lemma contain_locals_bounds w h size :
  (1 <= w <= 2147483647)%Z -> (1 <= h <= 2147483647)%Z ->
  (1 <= size <= 2147483647)%Z ->
  exists g, contain_locals w h size = Ok g /\
    (1 <= dst_w g <= size)%Z /\ (1 <= dst_h g <= size)%Z /\
    ((h <= w)%Z -> dst_w g = size) /\ ((w <= h)%Z -> dst_h g = size).
Proof.
  intros Hw Hh Hs.
  destruct (scale_approx w h size Hw Hh Hs) as (a & b & ms & es & Ha & Hb & Hmin & Happ).
  destruct (scaled_side_bounds w (Z.max w h) size ms es) as (x & rx & Hx & Hrx & Hlx & Hex);
    [lia | lia | lia | exact Happ |].
  destruct (scaled_side_bounds h (Z.max w h) size ms es) as (y & ry & Hy & Hry & Hly & Hey);
    [lia | lia | lia | exact Happ |].
  unfold contain_locals, scaled_size.
  rewrite Ha, Hb. cbn [rbind]. rewrite Hmin, Hx. cbn [rbind]. rewrite Hrx. cbn [rbind].
  rewrite Hy. cbn [rbind]. rewrite Hry. cbn [rbind].
  eexists. split; [reflexivity|]. cbn [dst_w dst_h].
  unfold py_int. rewrite !py_max_1.
  repeat split; lia.
Qed.

End GeometryFacts.

(** * Running [_contain_rgba] *)

Section ContainFacts.
Import Py Pillow GenIcons.
Context `{Kernels}.

Lemma preserves_refl w : preserves w w.
Proof. repeat split; auto. Qed.

Lemma preserves_trans w1 w2 w3 : preserves w1 w2 -> preserves w2 w3 -> preserves w1 w3.
Proof.
  intros (Ha & Hb & Hc) (Ha' & Hb' & Hc'). repeat split; [auto | congruence | congruence].
Qed.

Lemma fresh_heap (h : gmap positive ImageData) : h !! fresh (dom h) = None.
Proof. apply not_elem_of_dom. apply is_fresh. Qed.

Lemma preserves_alloc w d :
  preserves w (set_heap (<[fresh (dom (heap w)) := d]> (heap w)) w).
Proof.
  repeat split; cbn; auto. intros l d' Hl.
  rewrite lookup_insert_ne; [exact Hl|].
  intros <-. rewrite fresh_heap in Hl. discriminate.
Qed.

Lemma preserves_none w w' l : preserves w w' -> heap w' !! l = None -> heap w !! l = None.
Proof.
  intros (Hp & _) Hn. destruct (heap w !! l) as [d|] eqn:Hl; [|reflexivity].
  apply Hp in Hl. congruence.
Qed.

(** Writing to an object that [w] does not hold keeps what [w] holds. *)
Lemma preserves_store w w' l d :
  preserves w w' -> heap w !! l = None ->
  preserves w (set_heap (<[l := d]> (heap w')) w').
Proof.
  intros (Hp & Hf & Ho) Hn. repeat split; cbn; auto.
  intros l' d' Hl'. rewrite lookup_insert_ne; [auto|]. congruence.
Qed.

Lemma deref_some w l d : heap w !! l = Some d -> deref l w = (Ok d, w).
Proof. intros Hl. unfold deref. rewrite Hl. reflexivity. Qed.

Lemma contain_rgba_run w l img size :
  heap w !! l = Some img -> _contain_rgba l size w = contain_run img size w.
Proof.
  intros Hl. unfold _contain_rgba, contain_run.
  unfold bind at 1. unfold Image_convert. unfold bind at 1.
  rewrite (deref_some _ _ _ Hl). unfold alloc at 1.
  set (l1 := fresh (dom (heap w))). set (img1 := converted img "RGBA").
  set (w1 := set_heap _ w).
  assert (Hl1 : heap w1 !! l1 = Some img1) by apply lookup_insert_eq.
  unfold bind at 1. unfold Image_size. unfold bind at 1.
  rewrite (deref_some _ _ _ Hl1). unfold ret at 1.
  cbn [im_size converted im_width im_height img1].
  destruct ((im_width img =? 0) || (im_height img =? 0)); [reflexivity|].
  unfold bind at 1. unfold lift at 1.
  destruct (scaled_size _ _ size) as [[[sc dw] dh]|e]; [|reflexivity].
  unfold bind at 1. unfold Image_resize. unfold bind at 1.
  rewrite (deref_some _ _ _ Hl1). unfold bind at 1. unfold lift at 1. cbn [fst snd].
  destruct (resized img1 dw dh) as [r|e]; [|reflexivity].
  unfold alloc at 1.
  set (l2 := fresh (dom (heap w1))). set (w2 := set_heap _ w1).
  assert (Hl2 : heap w2 !! l2 = Some r) by apply lookup_insert_eq.
  unfold bind at 1. unfold Image_new. unfold bind at 1. unfold lift at 1. cbn [fst snd].
  destruct (blank "RGBA" size size (0, 0, 0, 0)) as [b|e]; [|reflexivity].
  unfold alloc at 1.
  set (l3 := fresh (dom (heap w2))). set (w3 := set_heap _ w2).
  assert (Hl3 : heap w3 !! l3 = Some b) by apply lookup_insert_eq.
  assert (Hl2' : heap w3 !! l2 = Some r).
  { unfold w3. cbn [heap set_heap]. rewrite lookup_insert_ne; [exact Hl2|].
    intros Heq. pose proof (fresh_heap (heap w2)) as Hf. fold l3 in Hf.
    rewrite Heq in Hf. rewrite Hl2 in Hf. discriminate. }
  unfold bind at 1. unfold Image_paste. unfold bind at 1.
  rewrite (deref_some _ _ _ Hl2'). unfold bind at 1. rewrite (deref_some _ _ _ Hl2').
  unfold bind at 1. rewrite (deref_some _ _ _ Hl3).
  unfold bind at 1. unfold lift at 1. cbn [fst snd].
  destruct (pasted b r r _ _) as [p|e]; [|reflexivity].
  reflexivity.
Qed.

Lemma contain_rgba_dangling w l size :
  heap w !! l = None -> _contain_rgba l size w = (Raise ReferenceError, w).
Proof.
  intros Hl. unfold _contain_rgba. unfold bind at 1. unfold Image_convert.
  unfold bind at 1. unfold deref. rewrite Hl. reflexivity.
Qed.

(** No step of the run touches an image object that was there before,
    a file or the output; a returned object is a new one. *)
Lemma contain_run_preserves img size w :
  preserves w (snd (contain_run img size w)) /\
  forall c, fst (contain_run img size w) = Ok c -> heap w !! c = None.
Proof.
  unfold contain_run.
  set (w1 := set_heap (<[fresh (dom (heap w)) := _]> (heap w)) w).
  assert (H1 : preserves w w1) by apply preserves_alloc.
  destruct ((im_width img =? 0) || (im_height img =? 0)); [split; [exact H1 | discriminate]|].
  destruct (scaled_size _ _ size) as [[[sc dw] dh]|e]; [|split; [exact H1 | discriminate]].
  destruct (resized _ dw dh) as [r|e]; [|split; [exact H1 | discriminate]].
  set (w2 := set_heap (<[fresh (dom (heap w1)) := r]> (heap w1)) w1).
  assert (H2 : preserves w w2) by (eapply preserves_trans; [exact H1 | apply preserves_alloc]).
  destruct (blank _ size size _) as [b|e]; [|split; [exact H2 | discriminate]].
  set (l3 := fresh (dom (heap w2))).
  set (w3 := set_heap (<[l3 := b]> (heap w2)) w2).
  assert (H3 : preserves w w3) by (eapply preserves_trans; [exact H2 | apply preserves_alloc]).
  assert (Hn : heap w !! l3 = None) by (apply (preserves_none w w2); [exact H2 | apply fresh_heap]).
  destruct (pasted b r r _ _) as [p|e]; [|split; [exact H3 | discriminate]].
  cbn [fst snd]. split.
  - apply preserves_store; assumption.
  - intros c [= <-]. exact Hn.
Qed.

Lemma contain_locals_scaled W H' size g :
  contain_locals W H' size = Ok g <->
  scaled_size W H' size = Ok (scale g, dst_w g, dst_h g) /\
  ox g = py_floordiv (size - dst_w g) 2 /\ oy g = py_floordiv (size - dst_h g) 2.
Proof.
  unfold contain_locals. destruct (scaled_size W H' size) as [[[sc dw] dh]|e]; cbn [rbind].
  - split.
    + intros [= <-]. cbn. auto.
    + intros ([= -> -> ->] & Hx & Hy). destruct g; cbn in *. congruence.
  - split; [discriminate | intros [? _]; discriminate].
Qed.

Lemma check_side_ok n : check_side n = Ok tt -> n <= max_dim.
Proof.
  unfold check_side. destruct (_ || _); [discriminate|].
  destruct (Z.ltb_spec max_dim n); [discriminate | auto].
Qed.

Lemma check_side_pass n : 0 <= n <= max_dim -> check_side n = Ok tt.
Proof.
  intros Hn. pose proof max_dim_int as Hm. unfold INT_MAX in *. unfold check_side.
  replace (INT_MAX <? n) with false by (symmetry; apply Z.ltb_ge; unfold INT_MAX; lia).
  replace (n <? - INT_MAX - 1) with false by (symmetry; apply Z.ltb_ge; unfold INT_MAX; lia).
  cbn [orb]. replace (max_dim <? n) with false by (symmetry; apply Z.ltb_ge; lia).
  reflexivity.
Qed.

Lemma blank_ok mode w h color b :
  blank mode w h color = Ok b ->
  0 <= w <= max_dim /\ 0 <= h <= max_dim /\
  b = {| im_mode := mode; im_width := w; im_height := h; im_px := fun _ _ => color |}.
Proof.
  unfold blank. destruct (Z.ltb_spec w 0); [discriminate|].
  destruct (Z.ltb_spec h 0); [discriminate|]. cbn [orb].
  destruct (check_side w) as [[]|e] eqn:Hw; [|discriminate].
  destruct (check_side h) as [[]|e] eqn:Hh; [|discriminate]. cbn [rbind].
  intros [= <-]. apply check_side_ok in Hw, Hh. auto.
Qed.

Lemma blank_pass mode w h color :
  0 <= w <= max_dim -> 0 <= h <= max_dim ->
  blank mode w h color =
    Ok {| im_mode := mode; im_width := w; im_height := h; im_px := fun _ _ => color |}.
Proof.
  intros Hw Hh. unfold blank.
  replace (w <? 0) with false by (symmetry; apply Z.ltb_ge; lia).
  replace (h <? 0) with false by (symmetry; apply Z.ltb_ge; lia).
  cbn [orb]. rewrite !check_side_pass by assumption. reflexivity.
Qed.

Lemma resized_ok d w h r :
  resized d w h = Ok r ->
  im_width r = w /\ im_height r = h /\ im_mode r = im_mode d.
Proof.
  unfold resized.
  destruct (Z.eqb_spec (im_width d) w); [destruct (Z.eqb_spec (im_height d) h)|]; cbn [andb].
  - intros [= <-]. auto.
  - destruct (check_side w) as [[]|]; [|discriminate].
    destruct (check_side h) as [[]|]; [|discriminate]. cbn [rbind].
    destruct (_ || _); [discriminate|]. intros [= <-]. auto.
  - destruct (check_side w) as [[]|]; [|discriminate].
    destruct (check_side h) as [[]|]; [|discriminate]. cbn [rbind].
    destruct (_ || _); [discriminate|]. intros [= <-]. auto.
Qed.

Lemma resized_pass d w h :
  1 <= w <= max_dim -> 1 <= h <= max_dim -> exists r, resized d w h = Ok r.
Proof.
  intros Hw Hh. unfold resized. destruct (_ && _); [eauto|].
  rewrite !check_side_pass by lia. cbn [rbind].
  replace (w <? 1) with false by (symmetry; apply Z.ltb_ge; lia).
  replace (h <? 1) with false by (symmetry; apply Z.ltb_ge; lia).
  cbn [orb]. eauto.
Qed.

Lemma pasted_ok dst src mask ox oy p :
  pasted dst src mask ox oy = Ok p ->
  p = {| im_mode := im_mode dst; im_width := im_width dst; im_height := im_height dst;
         im_px := paste_px dst src mask ox oy |}.
Proof.
  unfold pasted. destruct (negb _); [discriminate|]. destruct (negb _); [discriminate|].
  congruence.
Qed.

Lemma pasted_self dst r ox oy :
  im_mode r = "RGBA" ->
  pasted dst r r ox oy =
    Ok {| im_mode := im_mode dst; im_width := im_width dst; im_height := im_height dst;
          im_px := paste_px dst r r ox oy |}.
Proof.
  intros Hm. unfold pasted. rewrite Hm, !Z.eqb_refl. reflexivity.
Qed.

(** A run that returns: the sides are not zero, Pillow accepts [size], and
    the returned object is the canvas with the resized image placed. *)
Lemma contain_run_inv img size w c w' :
  contain_run img size w = (Ok c, w') ->
  im_width img <> 0 /\ im_height img <> 0 /\ 0 <= size <= max_dim /\
  exists g canvas,
    contain_locals (im_width img) (im_height img) size = Ok g /\
    heap w' !! c = Some canvas /\ placed canvas size g.
Proof.
  unfold contain_run.
  destruct (Z.eqb_spec (im_width img) 0); [discriminate|].
  destruct (Z.eqb_spec (im_height img) 0); [discriminate|]. cbn [orb].
  destruct (scaled_size _ _ size) as [[[sc dw] dh]|e] eqn:Hsc; [|discriminate].
  destruct (resized _ dw dh) as [r|e] eqn:Hr; [|discriminate].
  destruct (blank _ size size _) as [b|e] eqn:Hb; [|discriminate].
  destruct (pasted b r r _ _) as [p|e] eqn:Hp; [|discriminate].
  intros [= <- <-].
  apply blank_ok in Hb as (Hs & _ & ->). apply pasted_ok in Hp. cbn in Hp.
  apply resized_ok in Hr as (Hrw & Hrh & _).
  split; [assumption|]. split; [assumption|]. split; [assumption|].
  exists {| scale := sc; dst_w := dw; dst_h := dh;
            ox := py_floordiv (size - dw) 2; oy := py_floordiv (size - dh) 2 |}, p.
  split; [apply contain_locals_scaled; cbn; auto|].
  split; [cbn; apply lookup_insert_eq|].
  subst p. unfold placed. cbn. repeat split; try reflexivity.
  exists r. cbn. auto.
Qed.

Lemma INT_MAX_val : INT_MAX = 2147483647.
Proof. reflexivity. Qed.

(** A returning run on a well-formed source with non-zero sides: the
    locals respect the bounds of [contain_locals_bounds]. *)
Lemma contain_rgba_returned w l img size c w' :
  heap w !! l = Some img -> wf_image img ->
  1 <= im_width img -> 1 <= im_height img -> 1 <= size ->
  _contain_rgba l size w = (Ok c, w') ->
  size <= max_dim /\
  exists g canvas,
    contain_locals (im_width img) (im_height img) size = Ok g /\
    heap w' !! c = Some canvas /\ placed canvas size g /\
    1 <= dst_w g <= size /\ 1 <= dst_h g <= size /\
    (im_height img <= im_width img -> dst_w g = size) /\
    (im_width img <= im_height img -> dst_h g = size).
Proof.
  intros Hl [Hw Hh] Hw1 Hh1 Hs Hrun.
  rewrite (contain_rgba_run _ _ _ _ Hl) in Hrun.
  apply contain_run_inv in Hrun as (_ & _ & Hsize & g & canvas & Hg & Hc & Hp).
  pose proof max_dim_int as Hm. rewrite INT_MAX_val in Hm.
  destruct (contain_locals_bounds (im_width img) (im_height img) size)
    as (g' & Hg' & Hb); [lia | lia | lia |].
  rewrite Hg in Hg'. injection Hg' as <-.
  split; [lia|]. exists g, canvas. tauto.
Qed.

(** For every size Pillow accepts the call returns. *)
Lemma contain_rgba_returns w l img size :
  heap w !! l = Some img -> wf_image img ->
  1 <= im_width img -> 1 <= im_height img -> 1 <= size <= max_dim ->
  exists c w', _contain_rgba l size w = (Ok c, w').
Proof.
  intros Hl [Hw Hh] Hw1 Hh1 Hs.
  rewrite (contain_rgba_run _ _ _ _ Hl).
  pose proof max_dim_int as Hm. rewrite INT_MAX_val in Hm.
  destruct (contain_locals_bounds (im_width img) (im_height img) size)
    as (g & Hg & Hbw & Hbh & _); [lia | lia | lia |].
  apply contain_locals_scaled in Hg as (Hsc & _ & _).
  unfold contain_run.
  replace (im_width img =? 0) with false by (symmetry; apply Z.eqb_neq; lia).
  replace (im_height img =? 0) with false by (symmetry; apply Z.eqb_neq; lia).
  cbn [orb]. rewrite Hsc.
  destruct (resized_pass (converted img "RGBA") (dst_w g) (dst_h g)) as (r & Hr);
    [lia | lia |].
  rewrite Hr. rewrite blank_pass by lia.
  apply resized_ok in Hr as (_ & _ & Hmode). cbn in Hmode.
  rewrite (pasted_self _ r _ _ Hmode). eauto.
Qed.

(** The world after any call: nothing that was there has changed. *)
Lemma contain_rgba_preserves w l size :
  preserves w (snd (_contain_rgba l size w)) /\
  forall c, fst (_contain_rgba l size w) = Ok c -> heap w !! c = None.
Proof.
  destruct (heap w !! l) as [img|] eqn:Hl.
  - rewrite (contain_rgba_run _ _ _ _ Hl). apply contain_run_preserves.
  - rewrite (contain_rgba_dangling _ _ _ Hl). cbn. split; [apply preserves_refl | discriminate].
Qed.

(** Size zero: [scale] is [0.0] and both sides are raised to one pixel. *)
Lemma scaled_size_zero W H' :
  1 <= W <= 2147483647 -> 1 <= H' <= 2147483647 ->
  scaled_size W H' 0 = Ok (Ffinite 0 0, 1, 1).
Proof.
  intros HW HH.
  assert (Hdiv : forall b, 1 <= b -> int_truediv 0 b = Ok (Ffinite 0 0)).
  { intros b Hb. unfold int_truediv.
    replace (b =? 0) with false by (symmetry; apply Z.eqb_neq; lia). reflexivity. }
  assert (Hmul : forall a, 1 <= a <= 2147483647 ->
            int_mul_float a (Ffinite 0 0) = Ok (Ffinite 0 0)).
  { intros a Ha. unfold int_mul_float.
    destruct (int_to_float_approx a Ha) as (m & e & -> & _). cbn [rbind float_mul].
    rewrite Z.mul_0_r, Z.mul_0_l. reflexivity. }
  unfold scaled_size. rewrite !Hdiv by lia. cbn [rbind].
  replace (py_min (Ffinite 0 0) (Ffinite 0 0)) with (Ffinite 0 0) by reflexivity.
  rewrite !Hmul by lia. reflexivity.
Qed.

(** A run returns as soon as lines 15-17 give sides Pillow accepts and
    Pillow accepts [size]. *)
Lemma contain_run_returns_from img size w sc dw dh :
  im_width img <> 0 -> im_height img <> 0 ->
  scaled_size (im_width img) (im_height img) size = Ok (sc, dw, dh) ->
  1 <= dw <= max_dim -> 1 <= dh <= max_dim -> 0 <= size <= max_dim ->
  exists c w', contain_run img size w = (Ok c, w').
Proof.
  intros Hw Hh Hsc Hdw Hdh Hs. unfold contain_run.
  replace (im_width img =? 0) with false by (symmetry; apply Z.eqb_neq; lia).
  replace (im_height img =? 0) with false by (symmetry; apply Z.eqb_neq; lia).
  cbn [orb]. rewrite Hsc.
  destruct (resized_pass (converted img "RGBA") dw dh Hdw Hdh) as (r & Hr).
  rewrite Hr. rewrite blank_pass by lia.
  apply resized_ok in Hr as (_ & _ & Hmode). cbn in Hmode.
  rewrite (pasted_self _ r _ _ Hmode). eauto.
Qed.

(** On a well-formed source with non-zero sides the call returns exactly
    for the sizes from 0 to [max_dim]. *)
Lemma contain_rgba_returns_iff w l img size :
  heap w !! l = Some img -> wf_image img ->
  1 <= im_width img -> 1 <= im_height img ->
  (exists c w', _contain_rgba l size w = (Ok c, w')) <-> 0 <= size <= max_dim.
Proof.
  intros Hl [Hw Hh] Hw1 Hh1. rewrite (contain_rgba_run _ _ _ _ Hl).
  pose proof max_dim_int as Hm. rewrite INT_MAX_val in Hm.
  split.
  - intros (c & w' & Hrun). apply contain_run_inv in Hrun. tauto.
  - intros Hs. destruct (Z.eq_dec size 0) as [-> | Hnz].
    + eapply contain_run_returns_from; [lia | lia | | | | lia].
      * apply scaled_size_zero; lia.
      * lia.
      * lia.
    + destruct (contain_locals_bounds (im_width img) (im_height img) size)
        as (g & Hg & Hbw & Hbh & _); [lia | lia | lia |].
      apply contain_locals_scaled in Hg as (Hsc & _ & _).
      eapply contain_run_returns_from; [lia | lia | exact Hsc | lia | lia | lia].
Qed.

End ContainFacts.

(** * Running the scripts *)

Section ScriptFacts.
Import Py Pillow GenIcons.
Context `{Kernels}.

Lemma wf_imageb_true d : wf_imageb d = true -> wf_image d.
Proof. unfold wf_imageb, wf_image. intros Hb. apply andb_prop in Hb as [Hb ?%Z.leb_le].
  apply andb_prop in Hb as [Hb ?%Z.leb_le]. apply andb_prop in Hb as [?%Z.leb_le ?%Z.leb_le].
  lia.
Qed.

Lemma decode_wf f d : decode f = Some d -> wf_image d.
Proof.
  destruct f as [im|frames|bytes]; cbn [decode].
  - destruct (wf_imageb im) eqn:Hb; [|discriminate]. intros [= <-]. apply wf_imageb_true, Hb.
  - destruct (largest_frame frames) as [im|]; [|discriminate].
    destruct (wf_imageb im) eqn:Hb; [|discriminate]. intros [= <-]. apply wf_imageb_true, Hb.
  - discriminate.
Qed.

(** The list comprehension of line 47. *)
Lemma mapM_contain sizes : forall w base img,
  heap w !! base = Some img -> wf_image img ->
  1 <= im_width img -> 1 <= im_height img ->
  Forall (fun s => 1 <= s <= max_dim) sizes ->
  exists cs w',
    mapM (fun s => _contain_rgba base s) sizes w = (Ok cs, w') /\
    preserves w w' /\
    Forall2 (fun c s => exists canvas g,
               heap w' !! c = Some canvas /\
               contain_locals (im_width img) (im_height img) s = Ok g /\
               placed canvas s g) cs sizes.
Proof.
  induction sizes as [|s sizes IH]; intros w base img Hb Hwf Hw Hh Hall.
  - exists [], w. split; [reflexivity|]. split; [apply preserves_refl | constructor].
  - inversion Hall as [|? ? Hs Hall']; subst.
    destruct (contain_rgba_returns w base img s Hb Hwf Hw Hh Hs) as (c & w1 & Hrun).
    pose proof (contain_rgba_preserves w base s) as [Hp _]. rewrite Hrun in Hp. cbn in Hp.
    destruct (contain_rgba_returned w base img s c w1 Hb Hwf Hw Hh ltac:(lia) Hrun)
      as (_ & g & canvas & Hg & Hc & Hpl & _).
    assert (Hb1 : heap w1 !! base = Some img) by (apply Hp; exact Hb).
    destruct (IH w1 base img Hb1 Hwf Hw Hh Hall') as (cs & w' & Hm & Hp' & Hf).
    exists (c :: cs), w'. split.
    { cbn [mapM]. unfold bind at 1. rewrite Hrun. unfold bind at 1. rewrite Hm. reflexivity. }
    split; [eapply preserves_trans; eassumption|].
    constructor; [|exact Hf].
    exists canvas, g. split; [apply Hp'; exact Hc|]. split; assumption.
Qed.

(** Saved from a 16 by 16 image, the ICO holds that image alone: every
    other requested size is larger than the image and is left out. *)
Lemma ico_frames_16 d :
  im_width d = 16 -> im_height d = 16 ->
  ico_frames d (map (fun s => (s, s)) ico_sizes) = [d].
Proof.
  intros Hw Hh. unfold ico_frames.
  replace (sorted_set (map (fun s => (s, s)) ico_sizes))
    with [(16, 16); (24, 24); (32, 32); (48, 48); (64, 64); (128, 128); (256, 256)]
    by reflexivity.
  cbn [omap list_omap fst snd]. rewrite Hw, Hh. reflexivity.
Qed.

(** [main] of gen_icons_from_tools.py on a source Pillow can load. *)
Lemma gen_icons_main_run w f img :
  fs w !! src = Some f -> decode f = Some img ->
  1 <= im_width img -> 1 <= im_height img -> 512 <= max_dim ->
  exists w' c512 g512 c16 g16,
    main w = (Ok tt, w') /\
    fs w' = <[out_ico := IcoFile [c16]]> (<[out_png := PngFile c512]> (fs w)) /\
    contain_locals (im_width img) (im_height img) 512 = Ok g512 /\ placed c512 512 g512 /\
    contain_locals (im_width img) (im_height img) 16 = Ok g16 /\ placed c16 16 g16 /\
    stdout w' = stdout w ++ ["Wrote " +:+ path_str out_png; "Wrote " +:+ path_str out_ico].
Proof.
  intros Hf Hd Hw Hh Hmax. pose proof (decode_wf _ _ Hd) as Hwf.
  unfold main. unfold bind at 1. unfold Path_exists. rewrite Hf.
  rewrite bool_decide_eq_true_2 by eauto. cbn [negb].
  unfold bind at 1. unfold Image_open. rewrite Hf, Hd. unfold alloc.
  set (base := fresh (dom (heap w))). set (w0 := set_heap _ w).
  assert (Hb : heap w0 !! base = Some img) by apply lookup_insert_eq.
  assert (Hp0 : preserves w w0) by apply preserves_alloc.
  (* line 42 *)
  destruct (contain_rgba_returns w0 base img 512 Hb Hwf Hw Hh ltac:(lia)) as (p & w1 & Hrun).
  pose proof (contain_rgba_preserves w0 base 512) as [Hp1 _]. rewrite Hrun in Hp1. cbn in Hp1.
  destruct (contain_rgba_returned w0 base img 512 p w1 Hb Hwf Hw Hh ltac:(lia) Hrun)
    as (_ & g512 & c512 & Hg512 & Hc512 & Hpl512 & _).
  unfold bind at 1. rewrite Hrun.
  (* line 43 *)
  unfold bind at 1. unfold Image_save_png. unfold bind at 1.
  rewrite (deref_some _ _ _ Hc512).
  destruct Hpl512 as (Hmode512 & Hrest512). rewrite Hmode512.
  rewrite bool_decide_eq_true_2 by (repeat (first [apply list_elem_of_here | apply list_elem_of_further])).
  unfold write_file at 1.
  set (w2 := set_fs _ w1).
  assert (Hb2 : heap w2 !! base = Some img) by (apply Hp1; exact Hb).
  (* line 47 *)
  destruct (mapM_contain ico_sizes w2 base img Hb2 Hwf Hw Hh) as (cs & w3 & Hm & Hp3 & Hall).
  { unfold ico_sizes. repeat constructor; lia. }
  unfold bind at 1. rewrite Hm.
  unfold ico_sizes in Hall. inversion Hall as [|c ? cs' ? Hfirst _]; subst.
  destruct Hfirst as (c16 & g16 & Hc16 & Hg16 & Hpl16).
  (* lines 50-54 *)
  unfold bind at 1. unfold save_ico. cbn [lookup list_lookup].
  unfold Image_save_ico. unfold bind at 1. rewrite (deref_some _ _ _ Hc16).
  pose proof Hpl16 as (Hmode16 & Hw16 & Hh16 & _). rewrite Hmode16.
  rewrite bool_decide_eq_true_2 by (repeat (first [apply list_elem_of_here | apply list_elem_of_further])).
  rewrite (ico_frames_16 c16 Hw16 Hh16).
  unfold write_file at 1.
  (* lines 56-57 *)
  unfold bind at 1. unfold print at 1. unfold print.
  destruct Hp3 as (_ & Hfs3 & Ho3). destruct Hp1 as (_ & Hfs1 & Ho1).
  destruct Hp0 as (_ & Hfs0 & Ho0).
  eexists _, c512, g512, c16, g16. split; [reflexivity|].
  cbn [fs stdout set_fs set_stdout set_heap].
  split; [rewrite Hfs3; unfold w2; cbn [fs set_fs]; rewrite Hfs1, Hfs0; reflexivity|].
  split; [exact Hg512|]. split; [split; assumption|].
  split; [exact Hg16|]. split; [exact Hpl16|].
  rewrite Ho3. unfold w2. cbn [stdout set_fs]. rewrite Ho1, Ho0.
  rewrite <- app_assoc. reflexivity.
Qed.

End ScriptFacts.

(** * Which exceptions a call can raise *)

Section RaiseFacts.
Import Py Pillow GenIcons.
Context `{Kernels}.

Lemma rbind_raise {A B} (r : Result A) (k : A -> Result B) e :
  rbind r k = Raise e -> r = Raise e \/ exists a, r = Ok a /\ k a = Raise e.
Proof. destruct r as [a|e']; cbn; [eauto | intros [= ->]; auto]. Qed.

Lemma int_truediv_raise a b e : int_truediv a b = Raise e -> e <> InvalidInput.
Proof.
  unfold int_truediv. destruct (b =? 0); [intros [= <-]; discriminate|].
  destruct (round_ratio _ _); intros [= <-]; discriminate.
Qed.

Lemma int_mul_float_raise a x e : int_mul_float a x = Raise e -> e <> InvalidInput.
Proof.
  unfold int_mul_float, int_to_float.
  destruct (round_ratio a 1); cbn; intros [= <-]; discriminate.
Qed.

Lemma float_round_raise x e : float_round x = Raise e -> e <> InvalidInput.
Proof. destruct x; cbn; intros [= <-]; discriminate. Qed.

Lemma scaled_size_raise W H' size e :
  scaled_size W H' size = Raise e -> e <> InvalidInput.
Proof.
  unfold scaled_size. intros Hr.
  repeat match type of Hr with
         | rbind _ _ = Raise _ =>
             apply rbind_raise in Hr as [Hr | (? & _ & Hr)];
             [ first [ eapply int_truediv_raise, Hr
                     | eapply int_mul_float_raise, Hr
                     | eapply float_round_raise, Hr ] | ]
         end.
  discriminate.
Qed.

Lemma check_side_raise n e : check_side n = Raise e -> e <> InvalidInput.
Proof.
  unfold check_side. destruct (_ || _); [intros [= <-]; discriminate|].
  destruct (_ <? _); intros [= <-]; discriminate.
Qed.

Lemma resized_raise d w h e : resized d w h = Raise e -> e <> InvalidInput.
Proof.
  unfold resized. destruct (_ && _); [discriminate|]. intros Hr.
  apply rbind_raise in Hr as [Hr | (? & _ & Hr)]; [eapply check_side_raise, Hr|].
  apply rbind_raise in Hr as [Hr | (? & _ & Hr)]; [eapply check_side_raise, Hr|].
  destruct (_ || _); [injection Hr as <-|]; discriminate.
Qed.

Lemma blank_raise mode w h color e : blank mode w h color = Raise e -> e <> InvalidInput.
Proof.
  unfold blank. destruct (_ || _); [intros [= <-]; discriminate|]. intros Hr.
  apply rbind_raise in Hr as [Hr | (? & _ & Hr)]; [eapply check_side_raise, Hr|].
  apply rbind_raise in Hr as [Hr | (? & _ & Hr)]; [eapply check_side_raise, Hr|].
  discriminate.
Qed.

Lemma pasted_raise dst src mask ox oy e :
  pasted dst src mask ox oy = Raise e -> e <> InvalidInput.
Proof.
  unfold pasted. destruct (negb _); [intros [= <-]; discriminate|].
  destruct (negb _); [intros [= <-]|]; discriminate.
Qed.

(** The run raises the exception of line 13 exactly on a zero side. *)
Lemma contain_run_invalid img size w :
  fst (contain_run img size w) = Raise InvalidInput <->
  im_width img = 0 \/ im_height img = 0.
Proof.
  unfold contain_run.
  destruct (Z.eqb_spec (im_width img) 0) as [Hw|Hw]; cbn [orb].
  { split; [auto | reflexivity]. }
  destruct (Z.eqb_spec (im_height img) 0) as [Hh|Hh].
  { split; [auto | reflexivity]. }
  split; [|intros [?|?]; contradiction].
  destruct (scaled_size _ _ size) as [[[sc dw] dh]|e] eqn:Hsc.
  2:{ cbn. intros [= ->]. exfalso. eapply scaled_size_raise; [exact Hsc | reflexivity]. }
  destruct (resized _ dw dh) as [r|e] eqn:Hr.
  2:{ cbn. intros [= ->]. exfalso. eapply resized_raise; [exact Hr | reflexivity]. }
  destruct (blank _ size size _) as [b|e] eqn:Hb.
  2:{ cbn. intros [= ->]. exfalso. eapply blank_raise; [exact Hb | reflexivity]. }
  destruct (pasted b r r _ _) as [p|e] eqn:Hp.
  2:{ cbn. intros [= ->]. exfalso. eapply pasted_raise; [exact Hp | reflexivity]. }
  cbn. discriminate.
Qed.

End RaiseFacts.

(** * The claims *)

Section Claims.
Import Py Pillow GenIcons.
Context `{Kernels}.

(** C1 (amended).  For every source image with width and height at least 1
    and every target size from 1 up to the largest side Pillow accepts
    ([max_dim], at most [2^31 - 1]), [_contain_rgba] returns an image whose
    width and height both equal [size], whatever the aspect ratio of the
    source. *)
Theorem contain_rgba_square_output w l img size :
  heap w !! l = Some img -> wf_image img ->
  1 <= im_width img -> 1 <= im_height img -> 1 <= size <= max_dim ->
  exists c w' canvas,
    _contain_rgba l size w = (Ok c, w') /\
    heap w' !! c = Some canvas /\
    im_width canvas = size /\ im_height canvas = size.
Proof.
  intros Hl Hwf Hw Hh Hs.
  destruct (contain_rgba_returns w l img size Hl Hwf Hw Hh Hs) as (c & w' & Hrun).
  destruct (contain_rgba_returned w l img size c w' Hl Hwf Hw Hh ltac:(lia) Hrun)
    as (_ & g & canvas & _ & Hc & (_ & Hcw & Hch & _) & _).
  exists c, w', canvas. auto.
Qed.

(** C3 (amended).  For every source with width greater than height (both at
    least 1) and every size at least 1, a call that returns has placed the
    content with [ox = 0] and [oy >= 0]: padding, if any, is on the top and
    bottom only, and [oy > 0] exactly when [dst_h <= size - 2];
    symmetrically, for height greater than width, [oy = 0], [ox >= 0], and
    [ox > 0] exactly when [dst_w <= size - 2]. *)
Theorem contain_rgba_padding_sides w l img size c w' :
  heap w !! l = Some img -> wf_image img ->
  1 <= im_width img -> 1 <= im_height img -> 1 <= size ->
  _contain_rgba l size w = (Ok c, w') ->
  exists g canvas,
    contain_locals (im_width img) (im_height img) size = Ok g /\
    heap w' !! c = Some canvas /\ placed canvas size g /\
    (im_height img < im_width img ->
       ox g = 0 /\ 0 <= oy g /\ (0 < oy g <-> dst_h g + 2 <= size)) /\
    (im_width img < im_height img ->
       oy g = 0 /\ 0 <= ox g /\ (0 < ox g <-> dst_w g + 2 <= size)).
Proof.
  intros Hl Hwf Hw Hh Hs Hrun.
  destruct (contain_rgba_returned w l img size c w' Hl Hwf Hw Hh Hs Hrun)
    as (_ & g & canvas & Hg & Hc & Hp & Hdw & Hdh & Hwide & Htall).
  exists g, canvas. split; [exact Hg|]. split; [exact Hc|]. split; [exact Hp|].
  apply contain_locals_scaled in Hg as (_ & -> & ->). unfold py_floordiv.
  split.
  - intros Hlt. rewrite (Hwide ltac:(lia)). rewrite Z.sub_diag.
    split; [reflexivity|]. split; [apply Z.div_pos; lia|].
    split; intros Hx.
    + destruct (Z_lt_le_dec (size - dst_h g) 2) as [Hsmall|]; [|lia].
      rewrite Z.div_small in Hx by lia. lia.
    + apply Z.div_str_pos. lia.
  - intros Hlt. rewrite (Htall ltac:(lia)). rewrite Z.sub_diag.
    split; [reflexivity|]. split; [apply Z.div_pos; lia|].
    split; intros Hx.
    + destruct (Z_lt_le_dec (size - dst_w g) 2) as [Hsmall|]; [|lia].
      rewrite Z.div_small in Hx by lia. lia.
    + apply Z.div_str_pos. lia.
Qed.

(** C6 (amended).  For every square source image (width equal to height, at
    least 1) and every size from 1 up to the largest side Pillow accepts
    ([max_dim], at most [2^31 - 1]), the call returns and the resized
    content fills the canvas: [dst_w = dst_h = size] and [ox = oy = 0]. *)
Theorem contain_rgba_square_source_fills w l img size :
  heap w !! l = Some img -> wf_image img ->
  1 <= im_width img -> im_width img = im_height img -> 1 <= size <= max_dim ->
  exists c w' g canvas,
    _contain_rgba l size w = (Ok c, w') /\
    contain_locals (im_width img) (im_height img) size = Ok g /\
    heap w' !! c = Some canvas /\ placed canvas size g /\
    dst_w g = size /\ dst_h g = size /\ ox g = 0 /\ oy g = 0.
Proof.
  intros Hl Hwf Hw Hsq Hs.
  destruct (contain_rgba_returns w l img size Hl Hwf Hw ltac:(lia) Hs) as (c & w' & Hrun).
  destruct (contain_rgba_returned w l img size c w' Hl Hwf Hw ltac:(lia) ltac:(lia) Hrun)
    as (_ & g & canvas & Hg & Hc & Hp & _ & _ & Hwide & Htall).
  exists c, w', g, canvas.
  split; [exact Hrun|]. split; [exact Hg|]. split; [exact Hc|]. split; [exact Hp|].
  specialize (Hwide ltac:(lia)). specialize (Htall ltac:(lia)).
  apply contain_locals_scaled in Hg as (_ & -> & ->). unfold py_floordiv.
  rewrite Hwide, Htall, Z.sub_diag. auto.
Qed.

(** C7.  For every source with width and height at least 1 and every size
    at least 1, the region [_contain_rgba] pastes lies inside the canvas:
    [ox >= 0], [oy >= 0], [ox + dst_w <= size] and [oy + dst_h <= size];
    and the call does return for every size Pillow accepts. *)
Theorem contain_rgba_region_inside_canvas w l img size :
  heap w !! l = Some img -> wf_image img ->
  1 <= im_width img -> 1 <= im_height img -> 1 <= size ->
  (size <= max_dim -> exists c w', _contain_rgba l size w = (Ok c, w')) /\
  (forall c w', _contain_rgba l size w = (Ok c, w') ->
     exists g canvas,
       contain_locals (im_width img) (im_height img) size = Ok g /\
       heap w' !! c = Some canvas /\ placed canvas size g /\
       0 <= ox g /\ 0 <= oy g /\
       ox g + dst_w g <= size /\ oy g + dst_h g <= size).
Proof.
  intros Hl Hwf Hw Hh Hs. split.
  - intros Hmax. apply (contain_rgba_returns w l img size Hl Hwf Hw Hh). lia.
  - intros c w' Hrun.
    destruct (contain_rgba_returned w l img size c w' Hl Hwf Hw Hh Hs Hrun)
      as (_ & g & canvas & Hg & Hc & Hp & Hdw & Hdh & _).
    exists g, canvas. split; [exact Hg|]. split; [exact Hc|]. split; [exact Hp|].
    apply contain_locals_scaled in Hg as (_ & -> & ->). unfold py_floordiv.
    pose proof (Z.div_pos (size - dst_w g) 2 ltac:(lia) ltac:(lia)).
    pose proof (Z.div_pos (size - dst_h g) 2 ltac:(lia) ltac:(lia)).
    pose proof (Z.mul_div_le (size - dst_w g) 2 ltac:(lia)).
    pose proof (Z.mul_div_le (size - dst_h g) 2 ltac:(lia)).
    lia.
Qed.

Lemma half_floor_div n : Spec.half_floor n = py_floordiv n 2.
Proof.
  unfold Spec.half_floor, py_floordiv.
  pose proof (Z.div_mod n 2 ltac:(lia)) as Hn.
  replace (n - n mod 2) with (n / 2 * 2) by lia. apply Z.div_mul. lia.
Qed.

Lemma contain_locals_spec_eq W H' size :
  contain_locals W H' size = Spec.contain_geometry W H' size.
Proof.
  unfold contain_locals, scaled_size, Spec.contain_geometry, Spec.scaled_side, Spec.smaller.
  destruct (int_truediv size W) as [a|e]; [|reflexivity].
  destruct (int_truediv size H') as [b|e]; [|reflexivity]. cbn [rbind].
  fold (py_min a b).
  destruct (int_mul_float W (py_min a b)) as [x|e]; [|reflexivity]. cbn [rbind].
  destruct (float_round x) as [rx|e]; [|reflexivity]. cbn [rbind].
  destruct (int_mul_float H' (py_min a b)) as [y|e]; [|reflexivity]. cbn [rbind].
  destruct (float_round y) as [ry|e]; [|reflexivity]. cbn [rbind].
  unfold py_int. rewrite !py_max_1, !half_floor_div. reflexivity.
Qed.

(** C5.  For every source with width and height at least 1 and every size
    at least 1, the locals of [_contain_rgba] are those of the
    specification: [scale = min(size / width, size / height)],
    [dst_w = max(1, round(width * scale))],
    [dst_h = max(1, round(height * scale))], [ox = (size - dst_w) // 2],
    [oy = (size - dst_h) // 2]; a call that returns has pasted the resized
    image at these offsets; the floor leaves an odd remainder on the right
    and at the bottom, so the content sits one pixel toward the top left. *)
Theorem contain_rgba_computes_spec_geometry w l img size :
  heap w !! l = Some img ->
  1 <= im_width img -> 1 <= im_height img -> 1 <= size ->
  contain_locals (im_width img) (im_height img) size
    = Spec.contain_geometry (im_width img) (im_height img) size /\
  (forall c w', _contain_rgba l size w = (Ok c, w') ->
     exists g canvas,
       Spec.contain_geometry (im_width img) (im_height img) size = Ok g /\
       heap w' !! c = Some canvas /\ placed canvas size g /\
       size - dst_w g - ox g = ox g + (size - dst_w g) mod 2 /\
       size - dst_h g - oy g = oy g + (size - dst_h g) mod 2).
Proof.
  intros Hl Hw Hh Hs. split; [apply contain_locals_spec_eq|].
  intros c w' Hrun. rewrite (contain_rgba_run _ _ _ _ Hl) in Hrun.
  apply contain_run_inv in Hrun as (_ & _ & _ & g & canvas & Hg & Hc & Hp).
  exists g, canvas. rewrite <- contain_locals_spec_eq.
  split; [exact Hg|]. split; [exact Hc|]. split; [exact Hp|].
  apply contain_locals_scaled in Hg as (_ & -> & ->). unfold py_floordiv.
  pose proof (Z.div_mod (size - dst_w g) 2 ltac:(lia)).
  pose proof (Z.div_mod (size - dst_h g) 2 ltac:(lia)). lia.
Qed.

(** C4 (amended).  [_contain_rgba] raises its InvalidInput error (the
    [ValueError] of line 13) if and only if the source image has zero width
    or zero height, whatever the requested size; in particular a 0 by 100
    source raises it for every requested size.  The size is not checked. *)
Theorem contain_rgba_invalid_input_iff w l img size :
  heap w !! l = Some img ->
  (fst (_contain_rgba l size w) = Raise InvalidInput <->
     im_width img = 0 \/ im_height img = 0) /\
  (im_width img = 0 -> im_height img = 100 ->
     forall any_size, fst (_contain_rgba l any_size w) = Raise InvalidInput).
Proof.
  intros Hl. split.
  - rewrite (contain_rgba_run _ _ _ _ Hl). apply contain_run_invalid.
  - intros Hw _ any_size. rewrite (contain_rgba_run _ _ _ _ Hl).
    apply contain_run_invalid. auto.
Qed.

Lemma contain_run_outcome img size w :
  outcome (contain_run img size w) = contain_result img size.
Proof.
  unfold contain_run, contain_result, outcome.
  destruct (_ || _); [reflexivity|].
  destruct (scaled_size _ _ size) as [[[sc dw] dh]|e]; [|reflexivity]. cbn [rbind].
  destruct (resized _ dw dh) as [r|e]; [|reflexivity]. cbn [rbind].
  destruct (blank _ size size _) as [b|e]; [|reflexivity]. cbn [rbind].
  destruct (pasted b r r _ _) as [p|e]; [|reflexivity].
  cbn [fst snd heap set_heap]. rewrite lookup_insert_eq. reflexivity.
Qed.

(** C9.  [_contain_rgba] is a function of the source image and the size:
    the image it returns (or the exception it raises) is determined by
    them alone; it returns a new image object; and it changes no image
    object that existed before the call, the source among them, nor any
    file, nor the output: the source holds the same pixels before and
    after every invocation. *)
Theorem contain_rgba_pure w l img size :
  heap w !! l = Some img ->
  heap (snd (_contain_rgba l size w)) !! l = Some img /\
  preserves w (snd (_contain_rgba l size w)) /\
  (forall c, fst (_contain_rgba l size w) = Ok c -> heap w !! c = None) /\
  outcome (_contain_rgba l size w) = contain_result img size.
Proof.
  intros Hl. pose proof (contain_rgba_preserves w l size) as [Hp Hnew].
  split; [apply Hp; exact Hl|]. split; [exact Hp|]. split; [exact Hnew|].
  rewrite (contain_rgba_run _ _ _ _ Hl). apply contain_run_outcome.
Qed.

(** C2 (what the code does).  On every source Pillow can load, [main]
    writes an ICO that holds exactly one frame, of 16 by 16 pixels: the
    image saved is the 16 px canvas, and the writer leaves out every
    requested size larger than the image it is given. *)
Theorem gen_icons_ico_has_one_frame w f img :
  fs w !! src = Some f -> decode f = Some img ->
  1 <= im_width img -> 1 <= im_height img -> 512 <= max_dim ->
  exists w' frames,
    main w = (Ok tt, w') /\
    fs w' !! out_ico = Some (IcoFile frames) /\
    length frames = 1%nat /\ map im_size frames = [(16, 16)].
Proof.
  intros Hf Hd Hw Hh Hmax.
  destruct (gen_icons_main_run w f img Hf Hd Hw Hh Hmax)
    as (w' & c512 & g512 & c16 & g16 & Hrun & Hfs & _ & _ & _ & (_ & Hw16 & Hh16 & _) & _).
  exists w', [c16]. split; [exact Hrun|].
  split; [rewrite Hfs; apply lookup_insert_eq|]. split; [reflexivity|].
  cbn. unfold im_size. rewrite Hw16, Hh16. reflexivity.
Qed.

Lemma tray_src_same : GenTray.src = src.
Proof. reflexivity. Qed.

(** C8.  If the source image file does not exist, each script ends with a
    failure status and a message on the error stream, in the world it
    started in: no output file is written and nothing is printed.  The
    first script raises [SystemExit] from its own check, the second fails
    in [Image.open]. *)
Theorem missing_source_halts_both_scripts w :
  fs w !! src = None ->
  (main w = (Raise (SystemExit ("Missing source icon: " +:+ path_str src)), w) /\
   run_script main w =
     {| exit_status := 1;
        stderr := Some ("Missing source icon: " +:+ path_str src);
        final := w |}) /\
  (GenTray.main w = (Raise (FileNotFoundError (path_str GenTray.src)), w) /\
   exit_status (run_script GenTray.main w) = 1 /\
   is_Some (stderr (run_script GenTray.main w)) /\
   final (run_script GenTray.main w) = w).
Proof.
  intros Hf.
  assert (H1 : main w = (Raise (SystemExit ("Missing source icon: " +:+ path_str src)), w)).
  { unfold main. unfold bind at 1. unfold Path_exists. rewrite Hf.
    rewrite bool_decide_eq_false_2 by (intros [? ?]; discriminate). reflexivity. }
  assert (H2 : GenTray.main w = (Raise (FileNotFoundError (path_str GenTray.src)), w)).
  { unfold GenTray.main. unfold bind at 1. unfold Image_open.
    rewrite tray_src_same, Hf. reflexivity. }
  split; (split; [assumption|]).
  - unfold run_script. rewrite H1. reflexivity.
  - unfold run_script. rewrite H2. cbn. eauto.
Qed.

(** C10.  The file system after lines 50-54 of [main] is determined by the
    file system before and by the image that [ico_imgs[0]] holds: two runs
    that agree on these write the same ICO, however the other entries of
    [ico_imgs] and the images they hold differ; and the file written is
    made from that first image and the list of sizes alone. *)
Theorem save_ico_reads_first_image_only (imgs1 imgs2 : list positive) (w1 w2 : World) :
  first_image imgs1 w1 = first_image imgs2 w2 ->
  fs w1 = fs w2 ->
  fs (snd (save_ico imgs1 w1)) = fs (snd (save_ico imgs2 w2)) /\
  (forall d, first_image imgs1 w1 = Some d -> im_mode d ∈ png_modes ->
     fs (snd (save_ico imgs1 w1)) !! out_ico
     = Some (IcoFile (ico_frames d (map (fun s => (s, s)) ico_sizes)))).
Proof.
  unfold first_image, save_ico. intros Hfirst Hfs.
  assert (Hsave : forall first w,
             fs (snd (Image_save_ico first out_ico (map (fun s => (s, s)) ico_sizes) w)) =
             match heap w !! first with
             | Some d =>
                 if bool_decide (im_mode d ∈ png_modes)
                 then <[out_ico := IcoFile (ico_frames d (map (fun s => (s, s)) ico_sizes))]> (fs w)
                 else fs w
             | None => fs w
             end).
  { intros first w. unfold Image_save_ico. unfold bind, deref.
    destruct (heap w !! first) as [d|]; [|reflexivity].
    destruct (bool_decide _); reflexivity. }
  split.
  - destruct (imgs1 !! 0%nat) as [l1|], (imgs2 !! 0%nat) as [l2|];
      rewrite ?Hsave; cbn [raise snd].
    + rewrite Hfirst, Hfs. reflexivity.
    + rewrite Hfirst. exact Hfs.
    + rewrite <- Hfirst. exact Hfs.
    + exact Hfs.
  - intros d Hd Hmode. destruct (imgs1 !! 0%nat) as [l1|]; [|discriminate].
    rewrite Hsave, Hd, bool_decide_eq_true_2 by exact Hmode.
    apply lookup_insert_eq.
Qed.

End Claims.

(** * Further facts about lines 15-17 of [_contain_rgba] *)

Section GeometryMore.
Import Py FloatValue GenIcons.
Local Open Scope R_scope.

(** Lines 16-17: a side [d] of the source, scaled and rounded, is less
    than one pixel away from the exact quotient [d * size / big]. *)
Lemma scaled_side_near d big size ms es :
  (1 <= d <= big)%Z -> (big <= 2147483647)%Z -> (1 <= size <= 2147483647)%Z ->
  approx (B2R ms es) (IZR size / IZR big) ->
  exists y r,
    int_mul_float d (Ffinite ms es) = Ok y /\ float_round y = Ok r /\
    ((r - 1) * big < d * size < (r + 1) * big)%Z.
Proof.
  intros Hd Hbig Hs [Hs1 Hs2].
  destruct (int_to_float_approx d ltac:(lia)) as (md & ed & Hfd & [Hd1 Hd2]).
  pose proof (ratio_bounds size big Hs ltac:(lia)) as [HX1 HX2].
  set (X := IZR size / IZR big) in *. set (vs := B2R ms es) in *.
  set (vd := B2R md ed) in *.
  assert (HD : 1 <= IZR d <= 2147483647) by (split; apply IZR_le; lia).
  assert (HS : 1 <= IZR size <= 2147483647) by (split; apply IZR_le; lia).
  assert (HB : IZR d <= IZR big) by (apply IZR_le; lia).
  assert (Hu : 0 < 1 - u64 /\ 0 < u64 /\ u64 < 1) by (rewrite u64_val; lra).
  assert (HP1 : X <= IZR d * X) by nra.
  assert (HP2 : IZR d * X <= IZR size).
  { unfold X. replace (IZR d * (IZR size / IZR big)) with (IZR size * (IZR d / IZR big))
      by (field; lra).
    rewrite <- (Rmult_1_r (IZR size)) at 2. apply Rmult_le_compat_l; [lra|].
    apply Rmult_le_reg_r with (IZR big); [lra|].
    replace (IZR d / IZR big * IZR big) with (IZR d) by (field; lra). lra. }
  assert (HPB : IZR d * X * IZR big = IZR d * IZR size).
  { unfold X. field. lra. }
  set (P := IZR d * X) in *.
  assert (Hvd : 0 < vd) by nra.
  assert (Hvs : 0 < vs) by nra.
  assert (Hup : vd * vs <= P * ((1 + u64) * (1 + u64))).
  { replace (P * ((1 + u64) * (1 + u64))) with ((IZR d * (1 + u64)) * (X * (1 + u64)))
      by (unfold P; ring).
    apply Rmult_le_compat; lra. }
  assert (Hlow : P * ((1 - u64) * (1 - u64)) <= vd * vs).
  { replace (P * ((1 - u64) * (1 - u64))) with ((IZR d * (1 - u64)) * (X * (1 - u64)))
      by (unfold P; ring).
    apply Rmult_le_compat; nra. }
  destruct (float_mul_approx md ed ms es Hvd Hvs) as (my & ey & Hmul & [Hy1 Hy2]).
  { fold vd vs. rewrite pow2_64, pow2_m64. rewrite u64_val in Hup, Hlow. lra. }
  fold vd vs in Hy1, Hy2. set (vy := B2R my ey) in *.
  assert (Hy_up : vy <= P * ((1 + u64) * (1 + u64) * (1 + u64))).
  { apply Rle_trans with (vd * vs * (1 + u64)); [exact Hy2|].
    replace (P * ((1 + u64) * (1 + u64) * (1 + u64)))
      with (P * ((1 + u64) * (1 + u64)) * (1 + u64)) by ring.
    apply Rmult_le_compat_r; lra. }
  assert (Hy_low : P * ((1 - u64) * (1 - u64) * (1 - u64)) <= vy).
  { apply Rle_trans with (vd * vs * (1 - u64)); [|exact Hy1].
    replace (P * ((1 - u64) * (1 - u64) * (1 - u64)))
      with (P * ((1 - u64) * (1 - u64)) * (1 - u64)) by ring.
    apply Rmult_le_compat_r; lra. }
  unfold int_mul_float. rewrite Hfd. cbn [rbind]. rewrite Hmul.
  destruct (float_round_near my ey) as (r & Hr & Hn). fold vy in Hn.
  apply Rabs_le_inv in Hn.
  exists (Ffinite my ey), r. split; [reflexivity|]. split; [exact Hr|].
  assert (Hnear : IZR r - 1 < P < IZR r + 1).
  { rewrite u64_val in Hy_up, Hy_low. lra. }
  assert (HBpos : 0 < IZR big) by lra.
  split; apply lt_IZR; rewrite !mult_IZR; [rewrite minus_IZR | rewrite plus_IZR];
    rewrite <- HPB; apply Rmult_lt_compat_r; lra.
Qed.

(** The sides of the resized image are the exact scaled sides
    [side * size / max(w, h)] to within less than one pixel. *)
Lemma contain_locals_near w h size :
  (1 <= w <= 2147483647)%Z -> (1 <= h <= 2147483647)%Z ->
  (1 <= size <= 2147483647)%Z ->
  exists g, contain_locals w h size = Ok g /\
    ((dst_w g - 1) * Z.max w h < w * size < (dst_w g + 1) * Z.max w h)%Z /\
    ((dst_h g - 1) * Z.max w h < h * size < (dst_h g + 1) * Z.max w h)%Z.
Proof.
  intros Hw Hh Hs.
  destruct (scale_approx w h size Hw Hh Hs) as (a & b & ms & es & Ha & Hb & Hmin & Happ).
  destruct (scaled_side_near w (Z.max w h) size ms es) as (x & rx & Hx & Hrx & Hnx);
    [lia | lia | lia | exact Happ |].
  destruct (scaled_side_near h (Z.max w h) size ms es) as (y & ry & Hy & Hry & Hny);
    [lia | lia | lia | exact Happ |].
  unfold contain_locals, scaled_size.
  rewrite Ha, Hb. cbn [rbind]. rewrite Hmin, Hx. cbn [rbind]. rewrite Hrx. cbn [rbind].
  rewrite Hy. cbn [rbind]. rewrite Hry. cbn [rbind].
  eexists. split; [reflexivity|]. cbn [dst_w dst_h].
  unfold py_int. rewrite !py_max_1.
  assert (Hm : (1 <= Z.max w h)%Z) by lia.
  split.
  - destruct (Z.max_spec 1 rx) as [[Hlt ->] | [Hge ->]]; [exact Hnx|]. nia.
  - destruct (Z.max_spec 1 ry) as [[Hlt ->] | [Hge ->]]; [exact Hny|]. nia.
Qed.

Lemma round_ratio_opp n d :
  (0 < n)%Z -> round_ratio (- n) d = float_neg (round_ratio n d).
Proof.
  intros Hn. unfold round_ratio.
  replace (- n ?= 0)%Z with Lt by (symmetry; apply Z.compare_lt_iff; lia).
  replace (n ?= 0)%Z with Gt by (symmetry; apply Z.compare_gt_iff; lia).
  rewrite Z.opp_involutive. reflexivity.
Qed.

(** A negative integer divided by a positive one. *)
Lemma int_truediv_neg a b :
  (1 <= a <= 2147483647)%Z -> (1 <= b <= 2147483647)%Z ->
  exists m e, int_truediv (- a) b = Ok (Ffinite (- m) e) /\
    approx (B2R m e) (IZR a / IZR b).
Proof.
  intros Ha Hb. destruct (int_truediv_approx a b Ha Hb) as (m & e & Hdiv & Happ).
  exists m, e. split; [|exact Happ].
  unfold int_truediv in *.
  replace (b =? 0)%Z with false in * by (symmetry; apply Z.eqb_neq; lia).
  replace (Z.sgn b) with 1%Z in * by lia. rewrite Z.mul_1_r, Z.abs_eq in * by lia.
  rewrite round_ratio_opp by lia.
  destruct (round_ratio a b); try discriminate. injection Hdiv as -> ->. reflexivity.
Qed.

Lemma rne_div_nonpos a b : (a <= 0)%Z -> (0 < b)%Z -> (rne_div a b <= 0)%Z.
Proof.
  intros Ha Hb. pose proof (rne_div_nearest a b Hb) as Hn. nia.
Qed.

(** Lines 16-17 with a negative [scale]: the rounded product is not
    positive. *)
Lemma scaled_side_neg d m e X :
  (1 <= d <= 2147483647)%Z -> approx (B2R m e) X ->
  / 2147483647 <= X <= 2147483647 ->
  exists y r, int_mul_float d (Ffinite (- m) e) = Ok y /\ float_round y = Ok r /\ (r <= 0)%Z.
Proof.
  intros Hd [Hs1 Hs2] [HX1 HX2].
  destruct (int_to_float_approx d Hd) as (md & ed & Hfd & [Hd1 Hd2]).
  assert (HD : 1 <= IZR d <= 2147483647) by (split; apply IZR_le; lia).
  assert (Hu : 0 < 1 - u64 /\ 0 < u64 /\ u64 < 1) by (rewrite u64_val; lra).
  set (vs := B2R m e) in *. set (vd := B2R md ed) in *.
  assert (Hvd : 0 < vd) by nra.
  assert (Hvs : 0 < vs) by nra.
  assert (Hup : vd * vs <= (IZR d * (1 + u64)) * (X * (1 + u64))).
  { apply Rmult_le_compat; lra. }
  assert (Hlow : (IZR d * (1 - u64)) * (X * (1 - u64)) <= vd * vs).
  { apply Rmult_le_compat; nra. }
  destruct (float_mul_approx md ed m e Hvd Hvs) as (my & ey & Hmul & Hy).
  { fold vd vs. rewrite pow2_64, pow2_m64. rewrite u64_val in Hup, Hlow, Hu. split.
    - apply Rle_trans with ((IZR d * (1 - / 9007199254740992)) * (X * (1 - / 9007199254740992)));
        [|exact Hlow].
      apply Rle_trans with ((1 * (1 - / 9007199254740992)) * (/ 2147483647 * (1 - / 9007199254740992)));
        [lra|].
      apply Rmult_le_compat; lra.
    - apply Rle_trans with ((IZR d * (1 + / 9007199254740992)) * (X * (1 + / 9007199254740992)));
        [exact Hup|].
      apply Rle_trans with ((2147483647 * (1 + / 9007199254740992)) * (2147483647 * (1 + / 9007199254740992)));
        [|lra].
      apply Rmult_le_compat; lra. }
  pose proof (B2R_pos _ _ Hvd) as Hmd. pose proof (B2R_pos _ _ Hvs) as Hm.
  pose proof (approx_pos _ _ (Rmult_lt_0_compat _ _ Hvd Hvs) Hy) as Hvy. apply B2R_pos in Hvy.
  assert (Hneg : float_mul (Ffinite md ed) (Ffinite (- m) e) = Ffinite (- my) ey).
  { cbn [float_mul] in *.
    replace (md * - m * 2 ^ Z.max 0 (ed + e))%Z with (- (md * m * 2 ^ Z.max 0 (ed + e)))%Z by ring.
    rewrite round_ratio_opp, Hmul; [reflexivity|].
    apply Z.mul_pos_pos; [apply Z.mul_pos_pos; lia|]. apply Z.pow_pos_nonneg; lia. }
  unfold int_mul_float. rewrite Hfd. cbn [rbind]. rewrite Hneg.
  eexists _, _. split; [reflexivity|]. split; [reflexivity|].
  apply rne_div_nonpos; [|apply Z.pow_pos_nonneg; lia].
  assert (0 <= 2 ^ Z.max 0 ey)%Z by (apply Z.pow_nonneg; lia). nia.
Qed.

(** Lines 15-17 for a negative [size]: [scale] is negative and both sides
    are raised to one pixel by [max]. *)
Lemma scaled_size_negative w h size :
  (1 <= w <= 2147483647)%Z -> (1 <= h <= 2147483647)%Z ->
  (- 2147483647 <= size <= -1)%Z ->
  exists sc, scaled_size w h size = Ok (sc, 1%Z, 1%Z).
Proof.
  intros Hw Hh Hs.
  assert (Hs' : (1 <= - size <= 2147483647)%Z) by lia.
  destruct (int_truediv_neg (- size) w Hs' Hw) as (ma & ea & Ha & Happa).
  destruct (int_truediv_neg (- size) h Hs' Hh) as (mb & eb & Hb & Happb).
  rewrite Z.opp_involutive in Ha, Hb.
  pose proof (ratio_bounds (- size) w Hs' Hw) as HXa.
  pose proof (ratio_bounds (- size) h Hs' Hh) as HXb.
  assert (Hmin : exists m e X, py_min (Ffinite (- ma) ea) (Ffinite (- mb) eb) = Ffinite (- m) e /\
            approx (B2R m e) X /\ / 2147483647 <= X <= 2147483647).
  { unfold py_min. destruct (float_lt _ _); eauto 6. }
  destruct Hmin as (m & e & X & Hmin & Happ & HX).
  destruct (scaled_side_neg w m e X Hw Happ HX) as (x & rx & Hx & Hrx & Hlx).
  destruct (scaled_side_neg h m e X Hh Happ HX) as (y & ry & Hy & Hry & Hly).
  unfold scaled_size. rewrite Ha, Hb. cbn [rbind]. rewrite Hmin, Hx. cbn [rbind].
  rewrite Hrx. cbn [rbind]. rewrite Hy. cbn [rbind]. rewrite Hry. cbn [rbind].
  unfold py_int. rewrite !py_max_1.
  replace (Z.max 1 rx) with 1%Z by lia. replace (Z.max 1 ry) with 1%Z by lia.
  eauto.
Qed.

End GeometryMore.

(** * Further properties of [_contain_rgba] *)

Section ContainMore.
Import Py Pillow GenIcons.
Context `{Kernels}.

(** The image a returning call hands back, read off [contain_result]. *)
Lemma contain_result_inv img size canvas :
  contain_result img size = Ok canvas ->
  exists g r,
    contain_locals (im_width img) (im_height img) size = Ok g /\
    resized (converted img "RGBA") (dst_w g) (dst_h g) = Ok r /\
    canvas = {| im_mode := "RGBA"; im_width := size; im_height := size;
                im_px := paste_px (transparent size) r r (ox g) (oy g) |}.
Proof.
  unfold contain_result. destruct (_ || _); [discriminate|].
  destruct (scaled_size _ _ size) as [[[sc dw] dh]|e] eqn:Hsc; [|discriminate]. cbn [rbind].
  destruct (resized _ dw dh) as [r|e] eqn:Hr; [|discriminate]. cbn [rbind].
  destruct (blank _ size size _) as [b|e] eqn:Hb; [|discriminate]. cbn [rbind].
  intros Hp. apply blank_ok in Hb as (_ & _ & ->). apply pasted_ok in Hp. cbn in Hp.
  exists {| scale := sc; dst_w := dw; dst_h := dh;
            ox := py_floordiv (size - dw) 2; oy := py_floordiv (size - dh) 2 |}, r.
  split; [apply contain_locals_scaled; cbn; auto|]. split; [exact Hr|]. exact Hp.
Qed.

Lemma contain_result_shape img size canvas :
  contain_result img size = Ok canvas ->
  im_mode canvas = "RGBA" /\ im_width canvas = size /\ im_height canvas = size.
Proof.
  intros Hc. apply contain_result_inv in Hc as (g & r & _ & _ & ->). auto.
Qed.

(** The object a returning call hands back holds [contain_result]. *)
Lemma contain_rgba_result w l img size c w' :
  heap w !! l = Some img -> _contain_rgba l size w = (Ok c, w') ->
  exists canvas, heap w' !! c = Some canvas /\ contain_result img size = Ok canvas.
Proof.
  intros Hl Hrun. rewrite (contain_rgba_run _ _ _ _ Hl) in Hrun.
  pose proof (contain_run_outcome img size w) as Ho.
  rewrite Hrun in Ho. unfold outcome in Ho. cbn [fst snd] in Ho.
  apply contain_run_inv in Hrun as (_ & _ & _ & g & canvas & _ & Hc & _).
  rewrite Hc in Ho. eauto.
Qed.

Lemma paste_px_outside dst src mask ox oy x y :
  ~ (ox <= x < ox + im_width src /\ oy <= y < oy + im_height src) ->
  paste_px dst src mask ox oy x y = im_px dst x y.
Proof.
  intros Hout. unfold paste_px.
  destruct (Z.leb_spec ox x); cbn [andb]; [|reflexivity].
  destruct (Z.ltb_spec x (ox + im_width src)); cbn [andb]; [|reflexivity].
  destruct (Z.leb_spec oy y); cbn [andb]; [|reflexivity].
  destruct (Z.ltb_spec y (oy + im_height src)); [|reflexivity].
  exfalso. apply Hout. lia.
Qed.

Lemma paste_px_inside dst src mask ox oy x y :
  ox <= x < ox + im_width src -> oy <= y < oy + im_height src ->
  paste_px dst src mask ox oy x y =
    blend (im_px dst x y)
          (convert_px (im_mode src) (im_mode dst) (im_px src (x - ox) (y - oy)))
          (im_px mask (x - ox) (y - oy)).
Proof.
  intros Hx Hy. unfold paste_px.
  replace (ox <=? x) with true by (symmetry; apply Z.leb_le; lia).
  replace (x <? ox + im_width src) with true by (symmetry; apply Z.ltb_lt; lia).
  replace (oy <=? y) with true by (symmetry; apply Z.leb_le; lia).
  replace (y <? oy + im_height src) with true by (symmetry; apply Z.ltb_lt; lia).
  reflexivity.
Qed.

(** X1.  The image a returning call hands back is in mode RGBA; every
    pixel outside the rectangle of [dst_w] by [dst_h] pixels at [(ox, oy)]
    is fully transparent, [(0, 0, 0, 0)]; every pixel inside is the pixel
    of the resized RGBA conversion of the source, blended over transparent
    black through its own alpha. *)
Theorem contain_rgba_padding_is_transparent w l img size c w' :
  heap w !! l = Some img ->
  _contain_rgba l size w = (Ok c, w') ->
  exists g r canvas,
    contain_locals (im_width img) (im_height img) size = Ok g /\
    resized (converted img "RGBA") (dst_w g) (dst_h g) = Ok r /\
    heap w' !! c = Some canvas /\
    im_mode canvas = "RGBA" /\
    (forall x y,
       ~ (ox g <= x < ox g + dst_w g /\ oy g <= y < oy g + dst_h g) ->
       im_px canvas x y = (0, 0, 0, 0)) /\
    (forall x y,
       ox g <= x < ox g + dst_w g -> oy g <= y < oy g + dst_h g ->
       im_px canvas x y =
         blend (0, 0, 0, 0)
               (convert_px "RGBA" "RGBA" (im_px r (x - ox g) (y - oy g)))
               (im_px r (x - ox g) (y - oy g))).
Proof.
  intros Hl Hrun.
  destruct (contain_rgba_result w l img size c w' Hl Hrun) as (canvas & Hc & Hres).
  apply contain_result_inv in Hres as (g & r & Hg & Hr & ->).
  exists g, r. eexists. split; [exact Hg|]. split; [exact Hr|]. split; [exact Hc|].
  apply resized_ok in Hr as (Hrw & Hrh & Hrm). cbn in Hrm.
  split; [reflexivity|]. cbn [im_px]. split.
  - intros x y Hout. rewrite paste_px_outside; [reflexivity|]. rewrite Hrw, Hrh. exact Hout.
  - intros x y Hx Hy. rewrite paste_px_inside by (rewrite ?Hrw, ?Hrh; assumption).
    rewrite Hrm. reflexivity.
Qed.

(** X2.  A returning call keeps the aspect ratio to within one pixel: each
    side of the resized image differs by less than one pixel from the exact
    scaled side [side * size / max(width, height)], for every source with
    sides at least 1 and every size at least 1. *)
Theorem contain_rgba_keeps_aspect_ratio w l img size c w' :
  heap w !! l = Some img -> wf_image img ->
  1 <= im_width img -> 1 <= im_height img -> 1 <= size ->
  _contain_rgba l size w = (Ok c, w') ->
  exists g,
    contain_locals (im_width img) (im_height img) size = Ok g /\
    (dst_w g - 1) * Z.max (im_width img) (im_height img) < im_width img * size
      < (dst_w g + 1) * Z.max (im_width img) (im_height img) /\
    (dst_h g - 1) * Z.max (im_width img) (im_height img) < im_height img * size
      < (dst_h g + 1) * Z.max (im_width img) (im_height img).
Proof.
  intros Hl [Hw Hh] Hw1 Hh1 Hs Hrun.
  rewrite (contain_rgba_run _ _ _ _ Hl) in Hrun.
  apply contain_run_inv in Hrun as (_ & _ & Hsize & _).
  pose proof max_dim_int as Hm. rewrite INT_MAX_val in Hm.
  apply contain_locals_near; lia.
Qed.

(** X3.  Whenever the exact scaled side [side * size / max(width, height)]
    is an integer, a returning call resizes to exactly that integer: the
    float arithmetic of lines 15-17 loses nothing. *)
Theorem contain_rgba_exact_when_divisible w l img size c w' :
  heap w !! l = Some img -> wf_image img ->
  1 <= im_width img -> 1 <= im_height img -> 1 <= size ->
  _contain_rgba l size w = (Ok c, w') ->
  exists g,
    contain_locals (im_width img) (im_height img) size = Ok g /\
    (forall k, im_width img * size = k * Z.max (im_width img) (im_height img) ->
       dst_w g = k) /\
    (forall k, im_height img * size = k * Z.max (im_width img) (im_height img) ->
       dst_h g = k).
Proof.
  intros Hl [Hw Hh] Hw1 Hh1 Hs Hrun.
  rewrite (contain_rgba_run _ _ _ _ Hl) in Hrun.
  apply contain_run_inv in Hrun as (_ & _ & Hsize & _).
  pose proof max_dim_int as Hm. rewrite INT_MAX_val in Hm.
  destruct (contain_locals_near (im_width img) (im_height img) size)
    as (g & Hg & Hnw & Hnh); [lia | lia | lia |].
  exists g. split; [exact Hg|].
  assert (HM : 1 <= Z.max (im_width img) (im_height img)) by lia.
  split; intros k Hk; [rewrite Hk in Hnw | rewrite Hk in Hnh]; nia.
Qed.

(** X4.  A negative size (above [-2^31]) with a source whose sides are at
    least 1: lines 15-18 run ([scale] is negative, both sides are raised to
    one pixel, the source is resized to 1 by 1), then [Image.new] of line 20
    refuses the size with its own [ValueError]; nothing that existed is
    changed. *)
Theorem contain_rgba_negative_size_raises w l img size :
  heap w !! l = Some img -> wf_image img ->
  1 <= im_width img -> 1 <= im_height img -> - 2147483647 <= size <= -1 ->
  fst (_contain_rgba l size w) = Raise (ValueError "Width and height must be >= 0") /\
  (exists sc, scaled_size (im_width img) (im_height img) size = Ok (sc, 1, 1)) /\
  preserves w (snd (_contain_rgba l size w)).
Proof.
  intros Hl [Hw Hh] Hw1 Hh1 Hs.
  pose proof max_dim_int as Hm. rewrite INT_MAX_val in Hm.
  destruct (scaled_size_negative (im_width img) (im_height img) size) as (sc & Hsc);
    [lia | lia | lia |].
  split; [|split; [eauto | apply contain_rgba_preserves]].
  rewrite (contain_rgba_run _ _ _ _ Hl). unfold contain_run.
  replace (im_width img =? 0) with false by (symmetry; apply Z.eqb_neq; lia).
  replace (im_height img =? 0) with false by (symmetry; apply Z.eqb_neq; lia).
  cbn [orb]. rewrite Hsc.
  destruct (resized_pass (converted img "RGBA") 1 1) as (r & ->); [lia | lia |].
  unfold blank. replace (size <? 0) with true by (symmetry; apply Z.ltb_lt; lia).
  reflexivity.
Qed.

(** X5.  On a source whose sides are at least 1 the call returns exactly
    for the sizes from 0 to [max_dim], with a canvas of [size] by [size]
    pixels (empty for size 0); for every other size it raises, and what it
    raises is not the error of line 13. *)
Theorem contain_rgba_returns_exactly_in_range w l img size :
  heap w !! l = Some img -> wf_image img ->
  1 <= im_width img -> 1 <= im_height img ->
  (0 <= size <= max_dim ->
     exists c w' canvas,
       _contain_rgba l size w = (Ok c, w') /\ heap w' !! c = Some canvas /\
       im_mode canvas = "RGBA" /\ im_size canvas = (size, size)) /\
  (~ 0 <= size <= max_dim ->
     exists e, fst (_contain_rgba l size w) = Raise e /\ e <> InvalidInput).
Proof.
  intros Hl Hwf Hw Hh.
  pose proof (contain_rgba_returns_iff w l img size Hl Hwf Hw Hh) as Hiff.
  split.
  - intros Hs. apply Hiff in Hs as (c & w' & Hrun).
    destruct (contain_rgba_result w l img size c w' Hl Hrun) as (canvas & Hc & Hres).
    apply contain_result_shape in Hres as (Hm & Hcw & Hch).
    exists c, w', canvas. unfold im_size. rewrite Hcw, Hch. auto.
  - intros Hs. destruct (_contain_rgba l size w) as [[c|e] w'] eqn:Hrun.
    + exfalso. apply Hs, Hiff. eauto.
    + exists e. split; [reflexivity|]. intros ->.
      rewrite (contain_rgba_run _ _ _ _ Hl) in Hrun.
      pose proof (proj1 (contain_run_invalid img size w)) as Hinv.
      rewrite Hrun in Hinv. specialize (Hinv eq_refl). lia.
Qed.

(** When [contain_result] is an image, Pillow accepted the size and the
    source has no zero side. *)
Lemma contain_result_ok img size canvas :
  contain_result img size = Ok canvas ->
  im_width img <> 0 /\ im_height img <> 0 /\ 0 <= size <= max_dim.
Proof.
  unfold contain_result.
  destruct (Z.eqb_spec (im_width img) 0); [discriminate|].
  destruct (Z.eqb_spec (im_height img) 0); [discriminate|]. cbn [orb].
  destruct (scaled_size _ _ size) as [[[sc dw] dh]|e]; [|discriminate]. cbn [rbind].
  destruct (resized _ dw dh) as [r|e]; [|discriminate]. cbn [rbind].
  destruct (blank _ size size _) as [b|e] eqn:Hb; [|discriminate].
  apply blank_ok in Hb as (Hs & _). auto.
Qed.

(** X6.  In a returning call the resized image is never empty and never
    larger than the canvas: both of its sides lie between 1 and [size],
    the longer side of the source fills the canvas exactly, and a side
    whose exact scaled length [side * size / max(width, height)] is at most
    one pixel is given one pixel by the [max(1, ...)] of lines 16-17. *)
Theorem contain_rgba_resized_never_empty w l img size c w' :
  heap w !! l = Some img -> wf_image img ->
  1 <= im_width img -> 1 <= im_height img -> 1 <= size ->
  _contain_rgba l size w = (Ok c, w') ->
  exists g,
    contain_locals (im_width img) (im_height img) size = Ok g /\
    1 <= dst_w g <= size /\ 1 <= dst_h g <= size /\
    (im_height img <= im_width img -> dst_w g = size) /\
    (im_width img <= im_height img -> dst_h g = size) /\
    (im_width img * size <= Z.max (im_width img) (im_height img) -> dst_w g = 1) /\
    (im_height img * size <= Z.max (im_width img) (im_height img) -> dst_h g = 1).
Proof.
  intros Hl [Hw Hh] Hw1 Hh1 Hs Hrun.
  rewrite (contain_rgba_run _ _ _ _ Hl) in Hrun.
  apply contain_run_inv in Hrun as (_ & _ & Hsize & _).
  pose proof max_dim_int as Hm. rewrite INT_MAX_val in Hm.
  destruct (contain_locals_bounds (im_width img) (im_height img) size)
    as (g & Hg & Hbw & Hbh & Hwide & Htall); [lia | lia | lia |].
  destruct (contain_locals_near (im_width img) (im_height img) size)
    as (g' & Hg' & Hnw & Hnh); [lia | lia | lia |].
  rewrite Hg in Hg'. injection Hg' as <-.
  exists g. split; [exact Hg|]. split; [exact Hbw|]. split; [exact Hbh|].
  split; [exact Hwide|]. split; [exact Htall|].
  assert (HM : 1 <= Z.max (im_width img) (im_height img)) by lia.
  split; intros Hthin.
  - assert (dst_w g - 1 < 1); [|lia].
    apply Z.mul_lt_mono_pos_r with (Z.max (im_width img) (im_height img)); lia.
  - assert (dst_h g - 1 < 1); [|lia].
    apply Z.mul_lt_mono_pos_r with (Z.max (im_width img) (im_height img)); lia.
Qed.

(** X7.  A square source that already has the target size is not
    resampled: [resize] hands back a copy, and the image returned is the
    RGBA conversion of the source pasted through its own alpha at
    [(0, 0)] onto the transparent canvas. *)
Theorem contain_rgba_same_size_not_resampled w l img size c w' :
  heap w !! l = Some img -> wf_image img ->
  1 <= size -> im_width img = size -> im_height img = size ->
  _contain_rgba l size w = (Ok c, w') ->
  heap w' !! c =
    Some {| im_mode := "RGBA"; im_width := size; im_height := size;
            im_px := paste_px (transparent size) (converted img "RGBA")
                              (converted img "RGBA") 0 0 |}.
Proof.
  intros Hl [Hw Hh] Hs Hiw Hih Hrun.
  destruct (contain_rgba_result w l img size c w' Hl Hrun) as (canvas & Hc & Hres).
  rewrite Hc. f_equal.
  pose proof (contain_result_ok _ _ _ Hres) as (_ & _ & Hsize).
  apply contain_result_inv in Hres as (g & r & Hg & Hr & ->).
  pose proof max_dim_int as Hm. rewrite INT_MAX_val in Hm.
  destruct (contain_locals_bounds (im_width img) (im_height img) size)
    as (g' & Hg' & _ & _ & Hwide & Htall); [lia | lia | lia |].
  rewrite Hg in Hg'. injection Hg' as <-.
  specialize (Hwide ltac:(lia)). specialize (Htall ltac:(lia)).
  apply contain_locals_scaled in Hg as (_ & Hox & Hoy).
  rewrite Hox, Hoy, Hwide, Htall in *. unfold py_floordiv. rewrite Z.sub_diag.
  unfold resized in Hr. cbn [converted im_width im_height] in Hr.
  rewrite Hiw, Hih, !Z.eqb_refl in Hr. cbn [andb] in Hr. injection Hr as <-.
  reflexivity.
Qed.

Lemma int_truediv_nonzero a b e msg :
  b <> 0 -> int_truediv a b = Raise e -> e <> ZeroDivisionError msg.
Proof.
  intros Hb. unfold int_truediv.
  destruct (Z.eqb_spec b 0); [contradiction|].
  destruct (round_ratio _ _); intros [= <-]; discriminate.
Qed.

Lemma int_mul_float_no_division a x e msg :
  int_mul_float a x = Raise e -> e <> ZeroDivisionError msg.
Proof.
  unfold int_mul_float, int_to_float.
  destruct (round_ratio a 1); cbn; intros [= <-]; discriminate.
Qed.

Lemma float_round_no_division x e msg :
  float_round x = Raise e -> e <> ZeroDivisionError msg.
Proof. destruct x; cbn; intros [= <-]; discriminate. Qed.

(** Lines 15-17 behind the guard of line 12: no division by zero. *)
Lemma scaled_size_no_division W H' size e msg :
  W <> 0 -> H' <> 0 ->
  scaled_size W H' size = Raise e -> e <> ZeroDivisionError msg.
Proof.
  intros HW HH. unfold scaled_size. intros Hr.
  apply rbind_raise in Hr as [Hr | (? & _ & Hr)];
    [eapply int_truediv_nonzero; [exact HW | exact Hr]|].
  apply rbind_raise in Hr as [Hr | (? & _ & Hr)];
    [eapply int_truediv_nonzero; [exact HH | exact Hr]|].
  repeat match type of Hr with
         | rbind _ _ = Raise _ =>
             apply rbind_raise in Hr as [Hr | (? & _ & Hr)];
             [ first [ eapply int_mul_float_no_division, Hr
                     | eapply float_round_no_division, Hr ] | ]
         end.
  discriminate.
Qed.

Lemma check_side_no_division n e msg :
  check_side n = Raise e -> e <> ZeroDivisionError msg.
Proof.
  unfold check_side. destruct (_ || _); [intros [= <-]; discriminate|].
  destruct (_ <? _); intros [= <-]; discriminate.
Qed.

Lemma resized_no_division d w h e msg :
  resized d w h = Raise e -> e <> ZeroDivisionError msg.
Proof.
  unfold resized. destruct (_ && _); [discriminate|]. intros Hr.
  apply rbind_raise in Hr as [Hr | (? & _ & Hr)]; [eapply check_side_no_division, Hr|].
  apply rbind_raise in Hr as [Hr | (? & _ & Hr)]; [eapply check_side_no_division, Hr|].
  destruct (_ || _); [injection Hr as <-|]; discriminate.
Qed.

Lemma blank_no_division mode w h color e msg :
  blank mode w h color = Raise e -> e <> ZeroDivisionError msg.
Proof.
  unfold blank. destruct (_ || _); [intros [= <-]; discriminate|]. intros Hr.
  apply rbind_raise in Hr as [Hr | (? & _ & Hr)]; [eapply check_side_no_division, Hr|].
  apply rbind_raise in Hr as [Hr | (? & _ & Hr)]; [eapply check_side_no_division, Hr|].
  discriminate.
Qed.

Lemma pasted_no_division dst src mask ox oy e msg :
  pasted dst src mask ox oy = Raise e -> e <> ZeroDivisionError msg.
Proof.
  unfold pasted. destruct (negb _); [intros [= <-]; discriminate|].
  destruct (negb _); [intros [= <-]|]; discriminate.
Qed.

(** X8.  [_contain_rgba] never raises [ZeroDivisionError], whatever the
    image and the size: the guard of line 12 stands before the two
    divisions of line 15, and nothing else divides. *)
Theorem contain_rgba_never_divides_by_zero w l size msg :
  fst (_contain_rgba l size w) <> Raise (ZeroDivisionError msg).
Proof.
  destruct (heap w !! l) as [img|] eqn:Hl.
  2:{ rewrite (contain_rgba_dangling _ _ _ Hl). discriminate. }
  rewrite (contain_rgba_run _ _ _ _ Hl). unfold contain_run.
  destruct (Z.eqb_spec (im_width img) 0) as [Hw|Hw]; cbn [orb]; [discriminate|].
  destruct (Z.eqb_spec (im_height img) 0) as [Hh|Hh]; [discriminate|].
  destruct (scaled_size _ _ size) as [[[sc dw] dh]|e] eqn:Hsc.
  2:{ cbn. intros [= ->]. eapply scaled_size_no_division; [exact Hw | exact Hh | exact Hsc | reflexivity]. }
  destruct (resized _ dw dh) as [r|e] eqn:Hr.
  2:{ cbn. intros [= ->]. eapply resized_no_division; [exact Hr | reflexivity]. }
  destruct (blank _ size size _) as [b|e] eqn:Hb.
  2:{ cbn. intros [= ->]. eapply blank_no_division; [exact Hb | reflexivity]. }
  destruct (pasted b r r _ _) as [p|e] eqn:Hp.
  2:{ cbn. intros [= ->]. eapply pasted_no_division; [exact Hp | reflexivity]. }
  cbn. discriminate.
Qed.

End ContainMore.

(** * Further properties of the two scripts *)

Section ScriptMore.
Import Py Pillow GenIcons.
Context `{Kernels}.

(** The run and [contain_result] agree, in both directions. *)
Lemma contain_rgba_of_result w l img size :
  heap w !! l = Some img ->
  preserves w (snd (_contain_rgba l size w)) /\
  match contain_result img size with
  | Ok canvas =>
      exists c, fst (_contain_rgba l size w) = Ok c /\
                heap (snd (_contain_rgba l size w)) !! c = Some canvas
  | Raise e => fst (_contain_rgba l size w) = Raise e
  end.
Proof.
  intros Hl. split; [apply contain_rgba_preserves|].
  rewrite (contain_rgba_run _ _ _ _ Hl).
  rewrite <- (contain_run_outcome img size w). unfold outcome.
  destruct (contain_run img size w) as [[c|e] w'] eqn:Hrun; cbn [fst snd]; [|reflexivity].
  apply contain_run_inv in Hrun as (_ & _ & _ & g & canvas & _ & Hc & _).
  rewrite Hc. eauto.
Qed.

(** For sides of at least 1 and a size Pillow accepts, [contain_result] is
    an image. *)
Lemma contain_result_returns img size :
  wf_image img -> 1 <= im_width img -> 1 <= im_height img -> 0 <= size <= max_dim ->
  exists canvas, contain_result img size = Ok canvas.
Proof.
  intros Hwf Hw Hh Hs.
  set (w := {| heap := {[ 1%positive := img ]}; fs := ∅; stdout := [] |}).
  assert (Hl : heap w !! 1%positive = Some img) by apply lookup_singleton_eq.
  destruct (proj2 (contain_rgba_returns_iff w 1 img size Hl Hwf Hw Hh) Hs) as (c & w' & Hrun).
  destruct (contain_rgba_result w 1 img size c w' Hl Hrun) as (canvas & _ & Hres). eauto.
Qed.

(** The list comprehension of line 47, through [contain_result]. *)
Lemma mapM_contain_result sizes : forall w base img,
  heap w !! base = Some img ->
  Forall (fun s => exists canvas, contain_result img s = Ok canvas) sizes ->
  exists cs w',
    mapM (fun s => _contain_rgba base s) sizes w = (Ok cs, w') /\
    preserves w w' /\
    Forall2 (fun c s => exists canvas,
               heap w' !! c = Some canvas /\ contain_result img s = Ok canvas) cs sizes.
Proof.
  induction sizes as [|s sizes IH]; intros w base img Hb Hall.
  - exists [], w. split; [reflexivity|]. split; [apply preserves_refl | constructor].
  - inversion Hall as [|? ? (canvas & Hres) Hall']; subst.
    destruct (contain_rgba_of_result w base img s Hb) as [Hp Hrun]. rewrite Hres in Hrun.
    destruct Hrun as (c & Hfst & Hc).
    destruct (_contain_rgba base s w) as [r w1] eqn:Hcall. cbn [fst snd] in *. subst r.
    assert (Hb1 : heap w1 !! base = Some img) by (apply Hp; exact Hb).
    destruct (IH w1 base img Hb1 Hall') as (cs & w' & Hm & Hp' & Hf).
    exists (c :: cs), w'. split.
    { cbn [mapM]. unfold bind at 1. rewrite Hcall. unfold bind at 1. rewrite Hm. reflexivity. }
    split; [eapply preserves_trans; eassumption|].
    constructor; [|exact Hf].
    exists canvas. split; [apply Hp'; exact Hc | exact Hres].
Qed.

Lemma rgba_is_png_mode : "RGBA" ∈ png_modes.
Proof. repeat (first [apply list_elem_of_here | apply list_elem_of_further]). Qed.

Lemma save_png_rgba w l d p :
  heap w !! l = Some d -> im_mode d = "RGBA" ->
  Image_save_png l p w = (Ok tt, set_fs (<[p := PngFile d]> (fs w)) w).
Proof.
  intros Hl Hm. unfold Image_save_png. unfold bind at 1. rewrite (deref_some _ _ _ Hl).
  rewrite Hm, bool_decide_eq_true_2 by apply rgba_is_png_mode. reflexivity.
Qed.

(** Lines 28-40 of [main], when the source file holds an image. *)
Lemma gen_icons_main_open w f img :
  fs w !! src = Some f -> decode f = Some img ->
  main w =
    (png512 <- _contain_rgba (fresh (dom (heap w))) 512 ;;
     Image_save_png png512 out_png ;;
     ico_imgs <- mapM (fun s => _contain_rgba (fresh (dom (heap w))) s) ico_sizes ;;
     save_ico ico_imgs ;;
     print ("Wrote " +:+ path_str out_png) ;;
     print ("Wrote " +:+ path_str out_ico))
    (set_heap (<[fresh (dom (heap w)) := img]> (heap w)) w).
Proof.
  intros Hf Hd. unfold main. unfold bind at 1. unfold Path_exists. rewrite Hf.
  rewrite bool_decide_eq_true_2 by eauto. cbn [negb].
  unfold bind at 1. unfold Image_open. rewrite Hf, Hd. reflexivity.
Qed.

(** [main] of gen_icons_from_tools.py on a file Pillow can load: it fails
    at line 42 with the files and the output as they were, or it runs to
    the end. *)
Lemma gen_icons_main_result w f img :
  fs w !! src = Some f -> decode f = Some img ->
  match contain_result img 512 with
  | Raise e =>
      exists w', main w = (Raise e, w') /\ fs w' = fs w /\ stdout w' = stdout w
  | Ok c512 =>
      exists w' c16,
        contain_result img 16 = Ok c16 /\
        main w = (Ok tt, w') /\
        fs w' = <[out_ico := IcoFile [c16]]> (<[out_png := PngFile c512]> (fs w)) /\
        stdout w' = stdout w ++ ["Wrote " +:+ path_str out_png; "Wrote " +:+ path_str out_ico]
  end.
Proof.
  intros Hf Hd. pose proof (decode_wf _ _ Hd) as Hwf.
  rewrite (gen_icons_main_open w f img Hf Hd).
  set (base := fresh (dom (heap w))). set (w0 := set_heap _ w).
  assert (Hb : heap w0 !! base = Some img) by apply lookup_insert_eq.
  assert (Hp0 : preserves w w0) by apply preserves_alloc.
  destruct Hp0 as (_ & Hfs0 & Ho0).
  (* line 42 *)
  destruct (contain_rgba_of_result w0 base img 512 Hb) as [Hp1 Hrun].
  destruct (_contain_rgba base 512 w0) as [r1 w1] eqn:Hcall. cbn [fst snd] in *.
  destruct Hp1 as (Hheap1 & Hfs1 & Ho1).
  destruct (contain_result img 512) as [c512|e] eqn:Hres.
  2:{ subst r1. exists w1. unfold bind at 1. rewrite Hcall.
      split; [reflexivity|]. split; congruence. }
  destruct Hrun as (p & -> & Hc512).
  pose proof (contain_result_ok _ _ _ Hres) as (Hw0 & Hh0 & Hmax).
  pose proof (contain_result_shape _ _ _ Hres) as (Hmode512 & _).
  destruct Hwf as [Hwf_w Hwf_h].
  set (w2 := set_fs (<[out_png := PngFile c512]> (fs w1)) w1).
  assert (Hb2 : heap w2 !! base = Some img) by (apply Hheap1; exact Hb).
  (* line 47 *)
  destruct (mapM_contain_result ico_sizes w2 base img Hb2) as (cs & w3 & Hm & Hp3 & Hall).
  { unfold ico_sizes.
    repeat constructor; apply contain_result_returns; (split || idtac); lia. }
  unfold ico_sizes in Hall. inversion Hall as [|c ? cs' ? Hfirst _]; subst.
  destruct Hfirst as (c16 & Hc16 & Hres16).
  pose proof (contain_result_shape _ _ _ Hres16) as (Hmode16 & Hw16 & Hh16).
  destruct Hp3 as (_ & Hfs3 & Ho3).
  eexists _, c16. split; [exact Hres16|].
  unfold bind at 1. rewrite Hcall.
  (* line 43 *)
  unfold bind at 1. rewrite (save_png_rgba _ _ _ _ Hc512 Hmode512). fold w2.
  unfold bind at 1. rewrite Hm.
  (* lines 50-54 *)
  unfold bind at 1. unfold save_ico. cbn [lookup list_lookup].
  unfold Image_save_ico. unfold bind at 1. rewrite (deref_some _ _ _ Hc16).
  rewrite Hmode16, bool_decide_eq_true_2 by apply rgba_is_png_mode.
  rewrite (ico_frames_16 c16 Hw16 Hh16).
  unfold write_file at 1.
  (* lines 56-57 *)
  unfold bind at 1. unfold print at 1. unfold print.
  split; [reflexivity|].
  cbn [fs stdout set_fs set_stdout set_heap].
  split; [rewrite Hfs3; unfold w2; cbn [fs set_fs]; rewrite Hfs1, Hfs0; reflexivity|].
  rewrite Ho3. unfold w2. cbn [stdout set_fs]. rewrite Ho1, Ho0.
  rewrite <- app_assoc. reflexivity.
Qed.

(** [main] of gen_tray_icons.py on a file Pillow can load: it fails in
    one of the two resizes, before any file is written, or runs to the
    end. *)
Lemma gen_tray_main_result w f img :
  fs w !! GenTray.src = Some f -> decode f = Some img ->
  match resized (converted img "RGBA") 16 16, resized (converted img "RGBA") 32 32 with
  | Ok i16, Ok i32 =>
      exists w',
        GenTray.main w = (Ok tt, w') /\
        fs w' = <[GenTray.out32 := PngFile i32]> (<[GenTray.out16 := PngFile i16]> (fs w)) /\
        stdout w' = stdout w ++ ["Wrote " +:+ path_str GenTray.out16;
                                 "Wrote " +:+ path_str GenTray.out32]
  | Raise e, _ | Ok _, Raise e =>
      exists w', GenTray.main w = (Raise e, w') /\ fs w' = fs w /\ stdout w' = stdout w
  end.
Proof.
  intros Hf Hd.
  assert (Hopen : GenTray.main w =
    (img16 <- Image_resize (fresh (dom (<[fresh (dom (heap w)) := img]> (heap w)))) (16, 16) ;;
     img32 <- Image_resize (fresh (dom (<[fresh (dom (heap w)) := img]> (heap w)))) (32, 32) ;;
     Image_save_png img16 GenTray.out16 ;;
     Image_save_png img32 GenTray.out32 ;;
     print ("Wrote " +:+ path_str GenTray.out16) ;;
     print ("Wrote " +:+ path_str GenTray.out32))
    (set_heap (<[fresh (dom (<[fresh (dom (heap w)) := img]> (heap w))) := converted img "RGBA"]>
                 (<[fresh (dom (heap w)) := img]> (heap w))) w)).
  { unfold GenTray.main. unfold bind at 1. unfold Image_open. rewrite Hf, Hd. unfold alloc.
    unfold bind at 1. unfold Image_convert. unfold bind at 1.
    rewrite (deref_some _ (fresh (dom (heap w))) img) by apply lookup_insert_eq.
    reflexivity. }
  rewrite Hopen. clear Hopen.
  set (img1 := converted img "RGBA").
  set (h0 := <[fresh (dom (heap w)) := img]> (heap w)).
  set (l1 := fresh (dom h0)). set (w1 := set_heap _ w).
  assert (Hl1 : heap w1 !! l1 = Some img1) by apply lookup_insert_eq.
  assert (Hstep : forall (size : Z * Z) (k : positive -> M unit) w',
             heap w' !! l1 = Some img1 ->
             (i <- Image_resize l1 size ;; k i) w' =
             match resized img1 (fst size) (snd size) with
             | Ok d => k (fresh (dom (heap w')))
                         (set_heap (<[fresh (dom (heap w')) := d]> (heap w')) w')
             | Raise e => (Raise e, w')
             end).
  { intros size k w' Hl. unfold bind at 1. unfold Image_resize. unfold bind at 1.
    rewrite (deref_some _ _ _ Hl). unfold bind at 1. unfold lift at 1.
    destruct (resized img1 (fst size) (snd size)); reflexivity. }
  rewrite (Hstep _ _ w1 Hl1). cbn [fst snd].
  destruct (resized img1 16 16) as [i16|e] eqn:H16.
  2:{ exists w1. split; [reflexivity|]. split; reflexivity. }
  set (l2 := fresh (dom (heap w1))). set (w2 := set_heap _ w1).
  assert (Hl2 : heap w2 !! l2 = Some i16) by apply lookup_insert_eq.
  assert (Hl1' : heap w2 !! l1 = Some img1).
  { unfold w2. cbn [heap set_heap]. rewrite lookup_insert_ne; [exact Hl1|].
    intros Heq. pose proof (fresh_heap (heap w1)) as Hfr. fold l2 in Hfr.
    rewrite Heq, Hl1 in Hfr. discriminate. }
  rewrite (Hstep _ _ w2 Hl1'). cbn [fst snd].
  destruct (resized img1 32 32) as [i32|e] eqn:H32.
  2:{ exists w2. split; [reflexivity|]. split; reflexivity. }
  set (l3 := fresh (dom (heap w2))). set (w3 := set_heap _ w2).
  assert (Hl3 : heap w3 !! l3 = Some i32) by apply lookup_insert_eq.
  assert (Hl2' : heap w3 !! l2 = Some i16).
  { unfold w3. cbn [heap set_heap]. rewrite lookup_insert_ne; [exact Hl2|].
    intros Heq. pose proof (fresh_heap (heap w2)) as Hfr. fold l3 in Hfr.
    rewrite Heq, Hl2 in Hfr. discriminate. }
  apply resized_ok in H16 as (_ & _ & Hm16). apply resized_ok in H32 as (_ & _ & Hm32).
  cbn in Hm16, Hm32.
  (* lines 16-17 *)
  unfold bind at 1. rewrite (save_png_rgba _ _ _ _ Hl2' Hm16).
  unfold bind at 1. rewrite (save_png_rgba (set_fs _ w3) l3 i32); [|exact Hl3|exact Hm32].
  (* lines 19-20 *)
  unfold bind at 1. unfold print.
  eexists. split; [reflexivity|]. cbn [fs stdout set_fs set_stdout set_heap].
  split; [reflexivity|]. rewrite <- app_assoc. reflexivity.
Qed.


Lemma gen_icons_main_undecodable w f :
  fs w !! src = Some f -> decode f = None ->
  main w = (Raise (UnidentifiedImageError (path_str src)), w).
Proof.
  intros Hf Hd. unfold main. unfold bind at 1. unfold Path_exists. rewrite Hf.
  rewrite bool_decide_eq_true_2 by eauto. cbn [negb].
  unfold bind at 1. unfold Image_open. rewrite Hf, Hd. reflexivity.
Qed.

Lemma gen_tray_main_unopened w :
  match fs w !! GenTray.src with
  | None => GenTray.main w = (Raise (FileNotFoundError (path_str GenTray.src)), w)
  | Some f =>
      decode f = None ->
      GenTray.main w = (Raise (UnidentifiedImageError (path_str GenTray.src)), w)
  end.
Proof.
  destruct (fs w !! GenTray.src) as [f|] eqn:Hf; [intros Hd|];
    unfold GenTray.main; unfold bind at 1; unfold Image_open; rewrite Hf, ?Hd; reflexivity.
Qed.

Lemma insert_two_twice (m : gmap Path FileData) a b x y :
  <[a := x]> (<[b := y]> (<[a := x]> (<[b := y]> m))) = <[a := x]> (<[b := y]> m).
Proof.
  apply map_eq. intros k.
  destruct (decide (a = k)) as [->|Ha]; [rewrite !lookup_insert_eq; reflexivity|].
  rewrite !(lookup_insert_ne _ a) by exact Ha.
  destruct (decide (b = k)) as [->|Hb]; [rewrite !lookup_insert_eq; reflexivity|].
  repeat (rewrite lookup_insert_ne by assumption). reflexivity.
Qed.

(** X9.  On a source file Pillow can load, with sides of at least 1,
    [main] of gen_icons_from_tools.py runs to the end with status 0:
    icon.png holds the image [_contain_rgba] makes for size 512, of 512 by
    512 pixels in mode RGBA; icon.ico holds the one for size 16; the
    source file is as it was; and the two lines are printed, PNG first. *)
Theorem gen_icons_main_writes_contain_results w f img :
  fs w !! src = Some f -> decode f = Some img ->
  1 <= im_width img -> 1 <= im_height img -> 512 <= max_dim ->
  exists w' c512 c16,
    main w = (Ok tt, w') /\
    exit_status (run_script main w) = 0 /\
    contain_result img 512 = Ok c512 /\ contain_result img 16 = Ok c16 /\
    fs w' !! out_png = Some (PngFile c512) /\
    im_mode c512 = "RGBA" /\ im_size c512 = (512, 512) /\
    fs w' !! out_ico = Some (IcoFile [c16]) /\
    fs w' !! src = Some f /\
    stdout w' = stdout w ++ ["Wrote " +:+ path_str out_png; "Wrote " +:+ path_str out_ico].
Proof.
  intros Hf Hd Hw Hh Hmax. pose proof (decode_wf _ _ Hd) as Hwf.
  destruct (contain_result_returns img 512 Hwf Hw Hh ltac:(lia)) as (c512 & Hres).
  pose proof (gen_icons_main_result w f img Hf Hd) as Hm. rewrite Hres in Hm.
  destruct Hm as (w' & c16 & Hres16 & Hmain & Hfs & Hout).
  pose proof (contain_result_shape _ _ _ Hres) as (Hmode & Hcw & Hch).
  exists w', c512, c16. split; [exact Hmain|].
  split; [unfold run_script; rewrite Hmain; reflexivity|].
  split; [exact Hres|]. split; [exact Hres16|].
  split; [rewrite Hfs, lookup_insert_ne by discriminate; apply lookup_insert_eq|].
  split; [exact Hmode|]. split; [unfold im_size; rewrite Hcw, Hch; reflexivity|].
  split; [rewrite Hfs; apply lookup_insert_eq|].
  split; [rewrite Hfs, !lookup_insert_ne by discriminate; exact Hf | exact Hout].
Qed.



(** X12.  When the source file exists but holds nothing Pillow can load,
    each script ends in [Image.open] with [UnidentifiedImageError], status
    1, in the world it started in: no file written, nothing printed. *)
Theorem undecodable_source_halts_both_scripts w f :
  fs w !! src = Some f -> decode f = None ->
  (main w = (Raise (UnidentifiedImageError (path_str src)), w) /\
   exit_status (run_script main w) = 1 /\ final (run_script main w) = w) /\
  (GenTray.main w = (Raise (UnidentifiedImageError (path_str GenTray.src)), w) /\
   exit_status (run_script GenTray.main w) = 1 /\ final (run_script GenTray.main w) = w).
Proof.
  intros Hf Hd.
  pose proof (gen_icons_main_undecodable w f Hf Hd) as H1.
  pose proof (gen_tray_main_unopened w) as H2.
  change GenTray.src with src in H2 at 1. rewrite Hf in H2. specialize (H2 Hd).
  split; (split; [assumption|]); unfold run_script; [rewrite H1 | rewrite H2]; auto.
Qed.

(** X13.  Running either script a second time changes no file: the source
    is not among the files a script writes, and what it writes is
    determined by the source image alone. *)
Theorem scripts_rerun_changes_no_file w f img :
  fs w !! src = Some f -> decode f = Some img ->
  1 <= im_width img -> 1 <= im_height img -> 512 <= max_dim ->
  (exists w1 w2,
     main w = (Ok tt, w1) /\ main w1 = (Ok tt, w2) /\ fs w2 = fs w1) /\
  (exists w1 w2,
     GenTray.main w = (Ok tt, w1) /\ GenTray.main w1 = (Ok tt, w2) /\ fs w2 = fs w1).
Proof.
  intros Hf Hd Hw Hh Hmax. pose proof (decode_wf _ _ Hd) as Hwf. split.
  - destruct (contain_result_returns img 512 Hwf Hw Hh ltac:(lia)) as (c512 & Hres).
    pose proof (gen_icons_main_result w f img Hf Hd) as Hm. rewrite Hres in Hm.
    destruct Hm as (w1 & c16 & Hres16 & Hmain & Hfs & _).
    assert (Hf1 : fs w1 !! src = Some f).
    { rewrite Hfs, !lookup_insert_ne by discriminate. exact Hf. }
    pose proof (gen_icons_main_result w1 f img Hf1 Hd) as Hm1. rewrite Hres in Hm1.
    destruct Hm1 as (w2 & c16' & Hres16' & Hmain1 & Hfs1 & _).
    rewrite Hres16 in Hres16'. injection Hres16' as <-.
    exists w1, w2. split; [exact Hmain|]. split; [exact Hmain1|].
    rewrite Hfs1, Hfs. apply insert_two_twice.
  - destruct (resized_pass (converted img "RGBA") 16 16) as (i16 & H16); [lia | lia |].
    destruct (resized_pass (converted img "RGBA") 32 32) as (i32 & H32); [lia | lia |].
    pose proof (gen_tray_main_result w f img Hf Hd) as Hm. rewrite H16, H32 in Hm.
    destruct Hm as (w1 & Hmain & Hfs & _).
    assert (Hf1 : fs w1 !! GenTray.src = Some f).
    { rewrite Hfs, !lookup_insert_ne by discriminate. exact Hf. }
    pose proof (gen_tray_main_result w1 f img Hf1 Hd) as Hm1. rewrite H16, H32 in Hm1.
    destruct Hm1 as (w2 & Hmain1 & Hfs1 & _).
    exists w1, w2. split; [exact Hmain|]. split; [exact Hmain1|].
    rewrite Hfs1, Hfs. apply insert_two_twice.
Qed.

(** X14.  On a source file Pillow can load, with sides of at least 1,
    [main] of gen_tray_icons.py runs to the end with status 0 and writes
    tools-16.png, of exactly 16 by 16 pixels, and tools-32.png, of exactly
    32 by 32 pixels, both in mode RGBA and both resized from the RGBA
    conversion of the full source, whatever its aspect ratio: nothing is
    padded; the source file is as it was. *)
Theorem gen_tray_main_writes_16_and_32 w f img :
  fs w !! GenTray.src = Some f -> decode f = Some img ->
  1 <= im_width img -> 1 <= im_height img -> 32 <= max_dim ->
  exists w' i16 i32,
    GenTray.main w = (Ok tt, w') /\
    exit_status (run_script GenTray.main w) = 0 /\
    resized (converted img "RGBA") 16 16 = Ok i16 /\
    resized (converted img "RGBA") 32 32 = Ok i32 /\
    fs w' !! GenTray.out16 = Some (PngFile i16) /\
    im_mode i16 = "RGBA" /\ im_size i16 = (16, 16) /\
    fs w' !! GenTray.out32 = Some (PngFile i32) /\
    im_mode i32 = "RGBA" /\ im_size i32 = (32, 32) /\
    fs w' !! GenTray.src = Some f /\
    stdout w' = stdout w ++ ["Wrote " +:+ path_str GenTray.out16;
                             "Wrote " +:+ path_str GenTray.out32].
Proof.
  intros Hf Hd Hw Hh Hmax.
  destruct (resized_pass (converted img "RGBA") 16 16) as (i16 & H16); [lia | lia |].
  destruct (resized_pass (converted img "RGBA") 32 32) as (i32 & H32); [lia | lia |].
  pose proof (gen_tray_main_result w f img Hf Hd) as Hm. rewrite H16, H32 in Hm.
  destruct Hm as (w' & Hmain & Hfs & Hout).
  destruct (resized_ok _ _ _ _ H16) as (Hw16 & Hh16 & Hm16).
  destruct (resized_ok _ _ _ _ H32) as (Hw32 & Hh32 & Hm32).
  cbn in Hm16, Hm32.
  exists w', i16, i32. split; [exact Hmain|].
  split; [unfold run_script; rewrite Hmain; reflexivity|].
  split; [exact H16|]. split; [exact H32|].
  split; [rewrite Hfs, lookup_insert_ne by discriminate; apply lookup_insert_eq|].
  split; [exact Hm16|]. split; [unfold im_size; rewrite Hw16, Hh16; reflexivity|].
  split; [rewrite Hfs; apply lookup_insert_eq|].
  split; [exact Hm32|]. split; [unfold im_size; rewrite Hw32, Hh32; reflexivity|].
  split; [rewrite Hfs, !lookup_insert_ne by discriminate; exact Hf | exact Hout].
Qed.


(** X16.  The two scripts can be run in either order: they read the same
    source, neither writes a file the other reads or writes, and the files
    after both have run are the same. *)
Theorem scripts_commute_on_files w f img :
  fs w !! src = Some f -> decode f = Some img ->
  1 <= im_width img -> 1 <= im_height img -> 512 <= max_dim ->
  exists wa wb wc wd,
    main w = (Ok tt, wa) /\ GenTray.main wa = (Ok tt, wb) /\
    GenTray.main w = (Ok tt, wc) /\ main wc = (Ok tt, wd) /\
    fs wb = fs wd.
Proof.
  intros Hf Hd Hw Hh Hmax. pose proof (decode_wf _ _ Hd) as Hwf.
  destruct (contain_result_returns img 512 Hwf Hw Hh ltac:(lia)) as (c512 & Hres).
  destruct (resized_pass (converted img "RGBA") 16 16) as (i16 & H16); [lia | lia |].
  destruct (resized_pass (converted img "RGBA") 32 32) as (i32 & H32); [lia | lia |].
  (* icons, then tray *)
  pose proof (gen_icons_main_result w f img Hf Hd) as Hm. rewrite Hres in Hm.
  destruct Hm as (wa & c16 & Hres16 & Hmain_a & Hfs_a & _).
  assert (Hfa : fs wa !! GenTray.src = Some f).
  { rewrite Hfs_a, !lookup_insert_ne by discriminate. exact Hf. }
  pose proof (gen_tray_main_result wa f img Hfa Hd) as Hm. rewrite H16, H32 in Hm.
  destruct Hm as (wb & Hmain_b & Hfs_b & _).
  (* tray, then icons *)
  pose proof (gen_tray_main_result w f img Hf Hd) as Hm. rewrite H16, H32 in Hm.
  destruct Hm as (wc & Hmain_c & Hfs_c & _).
  assert (Hfc : fs wc !! src = Some f).
  { rewrite Hfs_c, !lookup_insert_ne by discriminate. exact Hf. }
  pose proof (gen_icons_main_result wc f img Hfc Hd) as Hm. rewrite Hres in Hm.
  destruct Hm as (wd & c16' & Hres16' & Hmain_d & Hfs_d & _).
  rewrite Hres16 in Hres16'. injection Hres16' as <-.
  exists wa, wb, wc, wd. repeat (split; [assumption|]).
  rewrite Hfs_b, Hfs_a, Hfs_d, Hfs_c.
  rewrite (insert_insert_ne _ GenTray.out16 out_ico) by discriminate.
  rewrite (insert_insert_ne _ GenTray.out32 out_ico) by discriminate.
  rewrite (insert_insert_ne _ GenTray.out16 out_png) by discriminate.
  rewrite (insert_insert_ne _ GenTray.out32 out_png) by discriminate.
  reflexivity.
Qed.

(** X17.  For a square source the two scripts resample the same image for
    their 16 px icons: the single frame of icon.ico is tools-16.png pasted
    through its own alpha at [(0, 0)] onto a transparent 16 by 16 canvas. *)
Theorem square_source_icons_share_16px_image w f img :
  fs w !! src = Some f -> decode f = Some img ->
  1 <= im_width img -> im_width img = im_height img -> 512 <= max_dim ->
  exists wi wt r,
    main w = (Ok tt, wi) /\ GenTray.main w = (Ok tt, wt) /\
    fs wt !! GenTray.out16 = Some (PngFile r) /\
    fs wi !! out_ico =
      Some (IcoFile [ {| im_mode := "RGBA"; im_width := 16; im_height := 16;
                         im_px := paste_px (transparent 16) r r 0 0 |} ]).
Proof.
  intros Hf Hd Hw Hsq Hmax. pose proof (decode_wf _ _ Hd) as Hwf.
  destruct (contain_result_returns img 512 Hwf Hw ltac:(lia) ltac:(lia)) as (c512 & Hres).
  pose proof (gen_icons_main_result w f img Hf Hd) as Hm. rewrite Hres in Hm.
  destruct Hm as (wi & c16 & Hres16 & Hmain & Hfs & _).
  destruct (resized_pass (converted img "RGBA") 16 16) as (i16 & H16); [lia | lia |].
  destruct (resized_pass (converted img "RGBA") 32 32) as (i32 & H32); [lia | lia |].
  pose proof (gen_tray_main_result w f img Hf Hd) as Hm. rewrite H16, H32 in Hm.
  destruct Hm as (wt & Hmain_t & Hfs_t & _).
  exists wi, wt, i16. split; [exact Hmain|]. split; [exact Hmain_t|].
  split; [rewrite Hfs_t, lookup_insert_ne by discriminate; apply lookup_insert_eq|].
  rewrite Hfs, lookup_insert_eq. do 3 f_equal.
  apply contain_result_inv in Hres16 as (g & r & Hg & Hr & ->).
  destruct Hwf as [Hwf_w Hwf_h].
  pose proof max_dim_int as Hmd. rewrite INT_MAX_val in Hmd.
  destruct (contain_locals_bounds (im_width img) (im_height img) 16)
    as (g' & Hg' & _ & _ & Hwide & Htall); [lia | lia | lia |].
  rewrite Hg in Hg'. injection Hg' as <-.
  specialize (Hwide ltac:(lia)). specialize (Htall ltac:(lia)).
  apply contain_locals_scaled in Hg as (_ & Hox & Hoy).
  rewrite Hwide in Hox. rewrite Htall in Hoy. rewrite Hwide, Htall in Hr.
  unfold py_floordiv in Hox, Hoy.
  rewrite Hox, Hoy. change ((16 - 16) / 2) with 0.
  rewrite H16 in Hr. injection Hr as <-. reflexivity.
Qed.

End ScriptMore.

(** * The claims on concrete inputs *)

Section Concrete.
Import Py Pillow GenIcons Reference Machine.

Lemma one_image_source d : heap (one_image d) !! 1%positive = Some d.
Proof. apply lookup_singleton_eq. Qed.

Lemma solid_wf mode w h p :
  0 <= w <= 2147483647 -> 0 <= h <= 2147483647 -> wf_image (solid mode w h p).
Proof. intros Hw Hh. unfold wf_image. cbn. unfold INT_MAX. lia. Qed.

Lemma wide_run_64 :
  _contain_rgba 1 64 (one_image wide)
  = (Ok 4%positive, snd (_contain_rgba 1 64 (one_image wide))).
Proof. apply injective_projections; [vm_compute; reflexivity | reflexivity]. Qed.

(** The scenario of the specification: a 100 by 50 source at size 64. *)
Example wide_locals_64 :
  contain_locals 100 50 64 =
    Ok {| scale := Ffinite 5764607523034235 (-53);
          dst_w := 64; dst_h := 32; ox := 0; oy := 16 |}.
Proof. vm_compute. reflexivity. Qed.

(** C1, on the 100 by 50 image at size 64. *)
Lemma contain_rgba_square_output_witness :
  exists c w' canvas,
    _contain_rgba 1 64 (one_image wide) = (Ok c, w') /\
    heap w' !! c = Some canvas /\ im_width canvas = 64 /\ im_height canvas = 64.
Proof.
  apply (contain_rgba_square_output (one_image wide) 1 wide 64).
  - apply one_image_source.
  - apply solid_wf; lia.
  - cbn; lia.
  - cbn; lia.
  - cbn; unfold INT_MAX; lia.
Defined.

(** C1 as stated fails: a size of [2^1024] overflows the float division of
    line 15, and a size of [2^31] is no side Pillow can hold. *)
Lemma contain_rgba_huge_size_raises :
  fst (_contain_rgba 1 (2 ^ 1024) (one_image dot))
    = Raise (OverflowError "integer division result too large for a float") /\
  exists msg, fst (_contain_rgba 1 (2 ^ 31) (one_image dot)) = Raise (OverflowError msg).
Proof. split; [|eexists]; vm_compute; reflexivity. Qed.

(** C2, on a source file holding the 100 by 50 image. *)
Lemma gen_icons_ico_has_one_frame_witness :
  exists w' frames,
    main (one_file src wide) = (Ok tt, w') /\
    fs w' !! out_ico = Some (IcoFile frames) /\
    length frames = 1%nat /\ map im_size frames = [(16, 16)].
Proof.
  apply (gen_icons_ico_has_one_frame (one_file src wide) (PngFile wide) wide).
  - apply lookup_singleton_eq.
  - reflexivity.
  - cbn; lia.
  - cbn; lia.
  - cbn; unfold INT_MAX; lia.
Defined.

(** C3, on the 100 by 50 image at size 64. *)
Lemma contain_rgba_padding_sides_witness :
  exists g, contain_locals 100 50 64 = Ok g /\ ox g = 0 /\ 0 < oy g.
Proof.
  destruct (contain_rgba_padding_sides (one_image wide) 1 wide 64 4
              (snd (_contain_rgba 1 64 (one_image wide))))
    as (g & canvas & Hg & _ & _ & Hwide & _).
  - apply one_image_source.
  - apply solid_wf; lia.
  - cbn; lia.
  - cbn; lia.
  - lia.
  - apply wide_run_64.
  - exists g. split; [exact Hg|].
    destruct (Hwide ltac:(cbn; lia)) as (Hox & _ & Hoy). split; [exact Hox|].
    apply Hoy. cbn in Hg. rewrite wide_locals_64 in Hg. injection Hg as <-. cbn. lia.
Defined.

(** C3 as stated fails: a 3 by 2 source at size 3 is wider than tall and
    gets no padding at all ([oy = 0]): one spare row, halved with a floor. *)
Lemma contain_locals_wide_without_padding :
  contain_locals 3 2 3 =
    Ok {| scale := Ffinite 4503599627370496 (-52);
          dst_w := 3; dst_h := 2; ox := 0; oy := 0 |}.
Proof. vm_compute. reflexivity. Qed.

(** C4, on an image of width zero and height 100. *)
Lemma contain_rgba_invalid_input_iff_witness :
  fst (_contain_rgba 1 64 (one_image degenerate)) = Raise InvalidInput /\
  fst (_contain_rgba 1 (-3) (one_image degenerate)) = Raise InvalidInput.
Proof.
  destruct (contain_rgba_invalid_input_iff (one_image degenerate) 1 degenerate 64
              (one_image_source degenerate)) as [[_ Hzero] Hany].
  split; [apply Hzero; left; reflexivity | apply Hany; reflexivity].
Defined.

(** C4 as stated fails: with a valid source, size 0 raises nothing and
    returns an empty canvas. *)
Lemma contain_rgba_size_zero_returns :
  fst (_contain_rgba 1 0 (one_image wide)) = Ok 4%positive /\
  im_size <$> heap (snd (_contain_rgba 1 0 (one_image wide))) !! 4%positive = Some (0, 0).
Proof. split; vm_compute; reflexivity. Qed.

(** A negative size reaches Pillow, which refuses it with an error of its
    own. *)
Example contain_rgba_negative_size_raises_in_pillow :
  fst (_contain_rgba 1 (-1) (one_image wide))
    = Raise (ValueError "Width and height must be >= 0").
Proof. vm_compute. reflexivity. Qed.

(** [round] is Python's: a tie goes to the even integer.  A 4 by 2 source
    at size 5 has [2 * 1.25 = 2.5], hence [dst_h = 2]. *)
Example contain_locals_tie_to_even :
  contain_locals 4 2 5 =
    Ok {| scale := Ffinite 5629499534213120 (-52);
          dst_w := 5; dst_h := 2; ox := 0; oy := 1 |}.
Proof. vm_compute. reflexivity. Qed.

(** C5, on the 100 by 50 image at size 64. *)
Lemma contain_rgba_computes_spec_geometry_witness :
  contain_locals 100 50 64 = Spec.contain_geometry 100 50 64.
Proof.
  apply (contain_rgba_computes_spec_geometry (one_image wide) 1 wide 64).
  - apply one_image_source.
  - cbn; lia.
  - cbn; lia.
  - lia.
Defined.

(** C6, on the 40 by 40 image at size 64. *)
Lemma contain_rgba_square_source_fills_witness :
  exists c w' g canvas,
    _contain_rgba 1 64 (one_image square) = (Ok c, w') /\
    contain_locals 40 40 64 = Ok g /\
    heap w' !! c = Some canvas /\ placed canvas 64 g /\
    dst_w g = 64 /\ dst_h g = 64 /\ ox g = 0 /\ oy g = 0.
Proof.
  apply (contain_rgba_square_source_fills (one_image square) 1 square 64).
  - apply one_image_source.
  - apply solid_wf; lia.
  - cbn; lia.
  - reflexivity.
  - cbn; unfold INT_MAX; lia.
Defined.

(** C6 as stated fails: for a 1 by 1 source and size [2^54 + 3], which is
    no binary64 number, lines 15-17 give [dst_w = dst_h = 2^54 + 4]; the
    call then fails in [resize], so that no canvas is filled. *)
Lemma scaled_size_square_beyond_float_precision :
  scaled_size 1 1 (2 ^ 54 + 3) =
    Ok (Ffinite 4503599627370497 2, 2 ^ 54 + 4, 2 ^ 54 + 4) /\
  exists msg, fst (_contain_rgba 1 (2 ^ 54 + 3) (one_image dot)) = Raise (OverflowError msg).
Proof. split; [|eexists]; vm_compute; reflexivity. Qed.

(** C7, on the 100 by 50 image at size 64. *)
Lemma contain_rgba_region_inside_canvas_witness :
  exists g, contain_locals 100 50 64 = Ok g /\
    0 <= ox g /\ 0 <= oy g /\ ox g + dst_w g <= 64 /\ oy g + dst_h g <= 64.
Proof.
  destruct (contain_rgba_region_inside_canvas (one_image wide) 1 wide 64)
    as [_ Hin].
  - apply one_image_source.
  - apply solid_wf; lia.
  - cbn; lia.
  - cbn; lia.
  - lia.
  - destruct (Hin _ _ wide_run_64) as (g & canvas & Hg & _ & _ & Hb).
    exists g. split; [exact Hg | exact Hb].
Defined.

(** C8, in the world without any file. *)
Lemma missing_source_halts_both_scripts_witness :
  exit_status (run_script main empty_world) = 1 /\
  final (run_script main empty_world) = empty_world /\
  exit_status (run_script GenTray.main empty_world) = 1 /\
  final (run_script GenTray.main empty_world) = empty_world.
Proof.
  destruct (missing_source_halts_both_scripts empty_world) as [[_ H1] (_ & H2 & _ & H3)].
  - reflexivity.
  - rewrite H1. auto.
Defined.

(** C9, on the 100 by 50 image at size 64. *)
Lemma contain_rgba_pure_witness :
  heap (snd (_contain_rgba 1 64 (one_image wide))) !! 1%positive = Some wide.
Proof.
  destruct (contain_rgba_pure (one_image wide) 1 wide 64 (one_image_source wide))
    as [Hsource _].
  exact Hsource.
Defined.

(** C10, on two worlds that differ in the second image of the list. *)
Lemma save_ico_reads_first_image_only_witness :
  fs (snd (save_ico [1; 2]%positive (two_images square wide)))
  = fs (snd (save_ico [1; 2]%positive (two_images square degenerate))).
Proof.
  destruct (save_ico_reads_first_image_only [1; 2]%positive [1; 2]%positive
              (two_images square wide) (two_images square degenerate))
    as [Hsame _]; [reflexivity | reflexivity | exact Hsame].
Defined.

(** The rounding of the model is the machine's: quotients and products
    of the runs above, computed by the processor's binary64 unit. *)
Example round_ratio_is_machine_division :
  to_spec (round_ratio 64 100) = machine_div 64 100 /\
  to_spec (round_ratio 16 100) = machine_div 16 100 /\
  to_spec (round_ratio 1 3) = machine_div 1 3 /\
  to_spec (round_ratio 2147483647 3) = machine_div 2147483647 3 /\
  to_spec (round_ratio 1 2147483647) = machine_div 1 2147483647 /\
  to_spec (round_ratio (2 ^ 54 + 3) 1) = machine_div (2 ^ 54 + 3) 1.
Proof. repeat split; vm_compute; reflexivity. Qed.

Example int_mul_float_is_machine_product :
  (to_spec <$> result_option (rbind (int_truediv 16 100) (int_mul_float 99)))
    = Some (machine_mul 99 (machine_float_div 16 100)) /\
  (to_spec <$> result_option (rbind (int_truediv 29 100) (int_mul_float 50)))
    = Some (machine_mul 50 (machine_float_div 29 100)) /\
  (to_spec <$> result_option (rbind (int_truediv 64 100) (int_mul_float 100)))
    = Some (machine_mul 100 (machine_float_div 64 100)).
Proof. repeat split; vm_compute; reflexivity. Qed.

(** Lines 15-17 of the model give the sides the machine's floats give, for
    every source of the grid at every size of the grid. *)
Example scaled_size_is_machine_computation :
  forallb (fun w => forallb (fun h => forallb (agrees w h) grid_sizes) grid_sides)
          grid_sides = true.
Proof. vm_compute. reflexivity. Qed.

End Concrete.

(** * The further properties on concrete inputs *)

Section ConcreteMore.
Import Py Pillow GenIcons Reference.

Lemma thin_run_16 :
  _contain_rgba 1 16 (one_image thin)
  = (Ok 4%positive, snd (_contain_rgba 1 16 (one_image thin))).
Proof. apply injective_projections; [vm_compute; reflexivity | reflexivity]. Qed.

Lemma square_run_40 :
  _contain_rgba 1 40 (one_image square)
  = (Ok 4%positive, snd (_contain_rgba 1 40 (one_image square))).
Proof. apply injective_projections; [vm_compute; reflexivity | reflexivity]. Qed.

(** X1, on the 100 by 50 image at size 64: two corners of the canvas. *)
Lemma contain_rgba_padding_is_transparent_witness :
  exists canvas,
    heap (snd (_contain_rgba 1 64 (one_image wide))) !! 4%positive = Some canvas /\
    im_px canvas 0 0 = (0, 0, 0, 0) /\ im_px canvas 63 63 = (0, 0, 0, 0).
Proof.
  destruct (contain_rgba_padding_is_transparent (one_image wide) 1 wide 64 4
              (snd (_contain_rgba 1 64 (one_image wide)))
              (one_image_source wide) wide_run_64)
    as (g & r & canvas & Hg & _ & Hc & _ & Hout & _).
  exists canvas. split; [exact Hc|].
  cbn in Hg. rewrite wide_locals_64 in Hg. injection Hg as <-.
  split; apply Hout; cbn; lia.
Defined.

(** X2, on the 100 by 50 image at size 64. *)
Lemma contain_rgba_keeps_aspect_ratio_witness :
  exists g, contain_locals 100 50 64 = Ok g /\
    (dst_h g - 1) * 100 < 50 * 64 < (dst_h g + 1) * 100.
Proof.
  destruct (contain_rgba_keeps_aspect_ratio (one_image wide) 1 wide 64 4
              (snd (_contain_rgba 1 64 (one_image wide))))
    as (g & Hg & _ & Hh).
  - apply one_image_source.
  - apply solid_wf; lia.
  - cbn; lia.
  - cbn; lia.
  - lia.
  - apply wide_run_64.
  - exists g. split; [exact Hg | exact Hh].
Defined.

(** X3, on the 100 by 50 image at size 64. *)
Lemma contain_rgba_exact_when_divisible_witness :
  exists g, contain_locals 100 50 64 = Ok g /\ dst_w g = 64 /\ dst_h g = 32.
Proof.
  destruct (contain_rgba_exact_when_divisible (one_image wide) 1 wide 64 4
              (snd (_contain_rgba 1 64 (one_image wide))))
    as (g & Hg & Hw & Hh).
  - apply one_image_source.
  - apply solid_wf; lia.
  - cbn; lia.
  - cbn; lia.
  - lia.
  - apply wide_run_64.
  - exists g. split; [exact Hg|].
    split; [apply Hw | apply Hh]; reflexivity.
Defined.

(** X4, on the 100 by 50 image at size -3. *)
Lemma contain_rgba_negative_size_raises_witness :
  fst (_contain_rgba 1 (-3) (one_image wide))
    = Raise (ValueError "Width and height must be >= 0").
Proof.
  destruct (contain_rgba_negative_size_raises (one_image wide) 1 wide (-3)) as [Hraise _].
  - apply one_image_source.
  - apply solid_wf; lia.
  - cbn; lia.
  - cbn; lia.
  - lia.
  - exact Hraise.
Defined.

(** X5, on the 100 by 50 image at size 0. *)
Lemma contain_rgba_returns_exactly_in_range_witness :
  exists c w' canvas,
    _contain_rgba 1 0 (one_image wide) = (Ok c, w') /\ heap w' !! c = Some canvas /\
    im_mode canvas = "RGBA" /\ im_size canvas = (0, 0).
Proof.
  destruct (contain_rgba_returns_exactly_in_range (one_image wide) 1 wide 0) as [Hin _].
  - apply one_image_source.
  - apply solid_wf; lia.
  - cbn; lia.
  - cbn; lia.
  - apply Hin. cbn; unfold INT_MAX; lia.
Defined.

(** X6, on the 1000 by 1 image at size 16: the height is one pixel. *)
Lemma contain_rgba_resized_never_empty_witness :
  exists g, contain_locals 1000 1 16 = Ok g /\ dst_w g = 16 /\ dst_h g = 1.
Proof.
  destruct (contain_rgba_resized_never_empty (one_image thin) 1 thin 16 4
              (snd (_contain_rgba 1 16 (one_image thin))))
    as (g & Hg & _ & _ & Hwide & _ & _ & Hthin).
  - apply one_image_source.
  - apply solid_wf; lia.
  - cbn; lia.
  - cbn; lia.
  - lia.
  - apply thin_run_16.
  - exists g. split; [exact Hg|].
    split; [apply Hwide | apply Hthin]; cbn; lia.
Defined.

(** X7, on the 40 by 40 image at size 40. *)
Lemma contain_rgba_same_size_not_resampled_witness :
  heap (snd (_contain_rgba 1 40 (one_image square))) !! 4%positive =
    Some {| im_mode := "RGBA"; im_width := 40; im_height := 40;
            im_px := paste_px (transparent 40) (converted square "RGBA")
                              (converted square "RGBA") 0 0 |}.
Proof.
  apply (contain_rgba_same_size_not_resampled (one_image square) 1 square 40 4
           (snd (_contain_rgba 1 40 (one_image square)))).
  - apply one_image_source.
  - apply solid_wf; lia.
  - lia.
  - reflexivity.
  - reflexivity.
  - apply square_run_40.
Defined.

(** X9, on a source file holding the 100 by 50 image. *)
Lemma gen_icons_main_writes_contain_results_witness :
  exists w' c512 c16,
    main (one_file src wide) = (Ok tt, w') /\
    exit_status (run_script main (one_file src wide)) = 0 /\
    contain_result wide 512 = Ok c512 /\ contain_result wide 16 = Ok c16 /\
    fs w' !! out_png = Some (PngFile c512) /\
    im_mode c512 = "RGBA" /\ im_size c512 = (512, 512) /\
    fs w' !! out_ico = Some (IcoFile [c16]) /\
    fs w' !! src = Some (PngFile wide) /\
    stdout w' = stdout (one_file src wide)
                ++ ["Wrote " +:+ path_str out_png; "Wrote " +:+ path_str out_ico].
Proof.
  apply (gen_icons_main_writes_contain_results (one_file src wide) (PngFile wide) wide).
  - apply lookup_singleton_eq.
  - reflexivity.
  - cbn; lia.
  - cbn; lia.
  - cbn; unfold INT_MAX; lia.
Defined.


(** X12, on a source file that holds no image. *)
Lemma undecodable_source_halts_both_scripts_witness :
  main (not_an_image src)
    = (Raise (UnidentifiedImageError (path_str src)), not_an_image src) /\
  GenTray.main (not_an_image src)
    = (Raise (UnidentifiedImageError (path_str GenTray.src)), not_an_image src).
Proof.
  destruct (undecodable_source_halts_both_scripts (not_an_image src) (OtherFile [110; 111]))
    as [[H1 _] [H2 _]].
  - apply lookup_singleton_eq.
  - reflexivity.
  - split; [exact H1 | exact H2].
Defined.

(** X13, on a source file holding the 100 by 50 image. *)
Lemma scripts_rerun_changes_no_file_witness :
  (exists w1 w2,
     main (one_file src wide) = (Ok tt, w1) /\ main w1 = (Ok tt, w2) /\ fs w2 = fs w1) /\
  (exists w1 w2,
     GenTray.main (one_file src wide) = (Ok tt, w1) /\
     GenTray.main w1 = (Ok tt, w2) /\ fs w2 = fs w1).
Proof.
  apply (scripts_rerun_changes_no_file (one_file src wide) (PngFile wide) wide).
  - apply lookup_singleton_eq.
  - reflexivity.
  - cbn; lia.
  - cbn; lia.
  - cbn; unfold INT_MAX; lia.
Defined.

(** X14, on a source file holding the 100 by 50 image: both icons are
    square. *)
Lemma gen_tray_main_writes_16_and_32_witness :
  exists w' i16 i32,
    GenTray.main (one_file GenTray.src wide) = (Ok tt, w') /\
    fs w' !! GenTray.out16 = Some (PngFile i16) /\ im_size i16 = (16, 16) /\
    fs w' !! GenTray.out32 = Some (PngFile i32) /\ im_size i32 = (32, 32).
Proof.
  destruct (gen_tray_main_writes_16_and_32 (one_file GenTray.src wide) (PngFile wide) wide)
    as (w' & i16 & i32 & Hmain & _ & _ & _ & H16 & _ & Hs16 & H32 & _ & Hs32 & _).
  - apply lookup_singleton_eq.
  - reflexivity.
  - cbn; lia.
  - cbn; lia.
  - cbn; unfold INT_MAX; lia.
  - exists w', i16, i32. auto.
Defined.

(** X16, on a source file holding the 100 by 50 image. *)
Lemma scripts_commute_on_files_witness :
  exists wa wb wc wd,
    main (one_file src wide) = (Ok tt, wa) /\ GenTray.main wa = (Ok tt, wb) /\
    GenTray.main (one_file src wide) = (Ok tt, wc) /\ main wc = (Ok tt, wd) /\
    fs wb = fs wd.
Proof.
  apply (scripts_commute_on_files (one_file src wide) (PngFile wide) wide).
  - apply lookup_singleton_eq.
  - reflexivity.
  - cbn; lia.
  - cbn; lia.
  - cbn; unfold INT_MAX; lia.
Defined.

(** X17, on a source file holding the 40 by 40 image. *)
Lemma square_source_icons_share_16px_image_witness :
  exists wi wt r,
    main (one_file src square) = (Ok tt, wi) /\
    GenTray.main (one_file src square) = (Ok tt, wt) /\
    fs wt !! GenTray.out16 = Some (PngFile r) /\
    fs wi !! out_ico =
      Some (IcoFile [ {| im_mode := "RGBA"; im_width := 16; im_height := 16;
                         im_px := paste_px (transparent 16) r r 0 0 |} ]).
Proof.
  apply (square_source_icons_share_16px_image (one_file src square) (PngFile square) square).
  - apply lookup_singleton_eq.
  - reflexivity.
  - cbn; lia.
  - reflexivity.
  - cbn; unfold INT_MAX; lia.
Defined.

End ConcreteMore.
